(** * NomadManager: a shallow embedding of the transcode/relocation core

    This development embeds the per-file decision engine
    ([process_movie_file]), the relocation helpers ([unique_dest],
    [move_safe], [copy_tree_safe]), the two-depth directory collector, the
    season consolidator ([process_show_topdir]) and one pass of the scan
    loop ([scan_and_process]) of [NomadManager.py].

    Model of the program's world:
    - the file system is a [gmap] from absolute paths (lists of path
      components) to entries, a regular file with its byte size or a
      directory;
    - the SQLite table [files] is a [gmap] from paths to [file_record];
    - [time.time()] is a clock advanced by every [time.sleep];
    - every mutation the program performs (mkdir, rename, copy, unlink,
      copytree, running HandBrakeCLI, a status write, a poster write) is
      appended to a trace, so "no mutation" is observable;
    - Python exceptions are the [Raise] outcome of a state-and-exception
      monad: effects performed before the raise are kept.
    The outside world (the operator, the download client writing files
    while the program sleeps, ffprobe, HandBrakeCLI, the operating system's
    refusal of a rename or unlink, TMDb) is a record of oracles. *)

From Stdlib Require Import ZArith String Ascii List Bool.
From stdpp Require Import base gmap sets list strings pretty sorting.

Open Scope Z_scope.

(** ** Strings as Python sees them *)

Module Py.

(** [Ascii.eqb] spelled for readability. *)
Definition ch_eqb (a b : ascii) : bool := Ascii.eqb a b.

(** [str.lower()] on ASCII text. *)
Definition lower_char (c : ascii) : ascii :=
  let n := Ascii.nat_of_ascii c in
  if (65 <=? n)%nat && (n <=? 90)%nat then Ascii.ascii_of_nat (n + 32) else c.

Fixpoint lower (s : string) : string :=
  match s with
  | EmptyString => EmptyString
  | String c s' => String (lower_char c) (lower s')
  end.

(** [needle in hay] *)
Fixpoint contains (needle hay : string) : bool :=
  String.prefix needle hay ||
  match hay with
  | EmptyString => false
  | String _ hay' => contains needle hay'
  end.

(** [hay.endswith(sfx)] *)
Definition endswith (sfx hay : string) : bool :=
  (String.length sfx <=? String.length hay)%nat &&
  String.eqb (String.substring (String.length hay - String.length sfx)
                                (String.length sfx) hay) sfx.

(** [name.startswith(pfx)] *)
Definition startswith (pfx s : string) : bool := String.prefix pfx s.

(** [name.rfind('.')], [None] standing for [-1]. *)
Fixpoint rfind_dot_go (s : string) (i : nat) (acc : option nat) : option nat :=
  match s with
  | EmptyString => acc
  | String c s' => rfind_dot_go s' (S i) (if ch_eqb c "." then Some i else acc)
  end.

Definition rfind_dot (s : string) : option nat := rfind_dot_go s 0 None.

(** The test [0 < i < len(name) - 1] of [PurePath.suffix] and [PurePath.stem]. *)
Definition dot_split (name : string) : option nat :=
  match rfind_dot name with
  | Some i =>
      if (0 <? i)%nat && (i <? String.length name - 1)%nat then Some i else None
  | None => None
  end.

End Py.

(** ** Paths (pathlib.PurePosixPath) *)

(** An absolute path, as the list of its components below [/]. *)
Abbreviation path := (list string).

Definition path_str (p : path) : string := "/" +:+ String.concat "/" p.

(** [p.name] *)
Definition name (p : path) : string := List.last p "".

(** [p.parent] *)
Definition parent (p : path) : path := List.removelast p.

(** [p.suffix] *)
Definition suffix_of (nm : string) : string :=
  match Py.dot_split nm with
  | Some i => String.substring i (String.length nm - i) nm
  | None => ""
  end.
Definition suffix (p : path) : string := suffix_of (name p).

(** [p.stem] *)
Definition stem_of (nm : string) : string :=
  match Py.dot_split nm with
  | Some i => String.substring 0 i nm
  | None => nm
  end.
Definition stem (p : path) : string := stem_of (name p).

(** [p.with_name(n)] *)
Definition with_name (p : path) (n : string) : path := parent p ++ [n].

(** [p.with_suffix(s)]: the old suffix (if any) is replaced. *)
Definition with_suffix (p : path) (s : string) : path := parent p ++ [stem p +:+ s].

(** [p.relative_to(root)]; [None] is the [ValueError] of a path outside [root]. *)
Fixpoint relative_to (p root : path) : option path :=
  match root, p with
  | [], _ => Some p
  | r :: root', c :: p' => if String.eqb r c then relative_to p' root' else None
  | _ :: _, [] => None
  end.

(** ** Constants of the script *)

Definition TEMP_SUFFIX : string := ".transcoding".
Definition VIDEO_EXTS : list string := [".mp4"; ".mkv"; ".avi"; ".m4v"; ".ts"; ".flv"; ".mov"].
Definition TEMP_PATTERNS : list string := [".part"; ".crdownload"; ".!qB"; ".partial"; ".downloading"].
Definition SIZE_STABLE_SECONDS : Z := 30.

(** [p.suffix.lower() in VIDEO_EXTS] *)
Definition is_video_name (p : path) : bool :=
  existsb (String.eqb (Py.lower (suffix p))) VIDEO_EXTS.

(** [is_temporary_name] *)
Definition is_temporary_name (nm : string) : bool :=
  existsb (fun pat => Py.endswith pat nm || Py.contains pat nm) TEMP_PATTERNS.

(** ** The world *)

(** A directory entry: a regular file with its [st_size], or a directory. *)
Inductive entry := File (sz : Z) | Dir.

(** [st_size] of a directory as [os.stat] reports it on common file systems. *)
Definition dir_st_size : Z := 4096.

(** A row of the table [files]. *)
Record file_record := {
  fr_status : string;
  fr_added_at : Z;
  fr_updated_at : Z;
  fr_note : option string
}.

(** The mutations the program performs, in order. *)
Inductive action :=
  | AMkdir (p : path)
  | ARename (a b : path)
  | ACopy (a b : path)
  | AUnlink (p : path)
  | ACopyTree (a b : path)
  | AHandBrake (src dst : path)
  | AMark (p : path) (status : string)
  | APoster (p : path).

Record world := {
  w_fs : gmap path entry;
  w_db : gmap path file_record;
  w_clock : Z;
  w_trace : list action
}.

Definition set_fs (fs : gmap path entry) (w : world) : world :=
  {| w_fs := fs; w_db := w_db w; w_clock := w_clock w; w_trace := w_trace w |}.
Definition set_db (db : gmap path file_record) (w : world) : world :=
  {| w_fs := w_fs w; w_db := db; w_clock := w_clock w; w_trace := w_trace w |}.
Definition set_clock (t : Z) (w : world) : world :=
  {| w_fs := w_fs w; w_db := w_db w; w_clock := t; w_trace := w_trace w |}.
Definition add_trace (a : action) (w : world) : world :=
  {| w_fs := w_fs w; w_db := w_db w; w_clock := w_clock w; w_trace := w_trace w ++ [a] |}.

(** ** A state-and-exception monad *)

Inductive exn :=
  | FileNotFoundError | FileExistsError | NotADirectoryError
  | IsADirectoryError | ValueError | OSError.

Definition exn_str (e : exn) : string :=
  match e with
  | FileNotFoundError => "FileNotFoundError"
  | FileExistsError => "FileExistsError"
  | NotADirectoryError => "NotADirectoryError"
  | IsADirectoryError => "IsADirectoryError"
  | ValueError => "ValueError"
  | OSError => "OSError"
  end.

Inductive result (A : Type) := Ok (a : A) | Raise (e : exn).
Arguments Ok {A} a.
Arguments Raise {A} e.

Definition M (A : Type) : Type := world -> world * result A.

Global Instance M_ret : MRet M := fun A a w => (w, Ok a).
Global Instance M_bind : MBind M := fun A B f m w =>
  match m w with
  | (w', Ok a) => f a w'
  | (w', Raise e) => (w', Raise e)
  end.

Definition raise {A} (e : exn) : M A := fun w => (w, Raise e).

(** [try: m  except Exception as e: h(e)] *)
Definition try_except {A} (m : M A) (h : exn -> M A) : M A := fun w =>
  match m w with
  | (w', Raise e) => h e w'
  | r => r
  end.

(** [try: m  except: pass] *)
Definition try_pass (m : M unit) : M unit := try_except m (fun _ => mret tt).

Definition gets {A} (f : world -> A) : M A := fun w => (w, Ok (f w)).
Definition modify (f : world -> world) : M unit := fun w => (f w, Ok tt).
Definition emit (a : action) : M unit := modify (add_trace a).

Fixpoint forM_ {A} (l : list A) (f : A -> M unit) : M unit :=
  match l with
  | [] => mret tt
  | x :: l' => f x ;; forM_ l' f
  end.

(** Python's [if x is None: raise ValueError] for a [relative_to]. *)
Definition lift_rel (o : option path) : M path :=
  match o with Some r => mret r | None => raise ValueError end.

(** ** Run-time configuration and the outside world *)

(** The global [ARGS] flags the core reads. *)
Record args := {
  dry_run : bool;
  confirm : bool;
  no_posters : bool;
  posters_only : bool
}.

(** The dictionary [probe_video] returns when ffprobe succeeds. *)
Record probe_info := {
  vcodec : option string;
  width : Z;
  height : Z;
  format_name : option string;
  size : Z
}.

(** The behaviour of everything outside the script. *)
Record oracles := {
  (** the operator's final answer to an [input] prompt *)
  o_answer : string -> bool;
  (** the file system after a [time.sleep(n)], during which other
      processes (the download client) may have written *)
  o_sleep : Z -> gmap path entry -> gmap path entry;
  (** the value of [probe_video(path)] on the current file system *)
  o_probe : gmap path entry -> path -> option probe_info;
  (** HandBrakeCLI: exit code, and size of the file it leaves at the output path *)
  o_handbrake : path -> path -> Z * option Z;
  (** the OS refuses [os.rename(a, b)] (e.g. across devices) *)
  o_rename_fails : path -> path -> bool;
  (** the OS refuses [os.unlink(p)] (e.g. permissions) *)
  o_unlink_fails : path -> bool;
  (** TMDb: the poster's byte count for a show name, if one is found *)
  o_poster : string -> option Z;
  (** the order in which [list(s)] lists a Python set [s] of strings whose
      elements were added in the given order (hash order in CPython) *)
  o_set_iter : list string -> list string
}.

(** ** File-system reads *)

Definition exists_ (fs : gmap path entry) (p : path) : bool :=
  bool_decide (is_Some (fs !! p)).

(** [os.stat(p).st_size], [None] when [p] does not exist. *)
Definition st_size_of (fs : gmap path entry) (p : path) : option Z :=
  match fs !! p with
  | Some (File s) => Some s
  | Some Dir => Some dir_st_size
  | None => None
  end.

Definition is_file (fs : gmap path entry) (p : path) : bool :=
  match fs !! p with Some (File _) => true | _ => false end.

Definition is_dir (fs : gmap path entry) (p : path) : bool :=
  match fs !! p with Some Dir => true | _ => false end.

(** [d.iterdir()]: the entries whose parent is [d], in the order the
    directory listing returns them. *)
Definition iterdir (fs : gmap path entry) (d : path) : list path :=
  List.filter (fun p => match relative_to p d with Some [_] => true | _ => false end)
         (map fst (map_to_list fs)).

(** [d.rglob("*")]: every entry strictly below [d]. *)
Definition rglob (fs : gmap path entry) (d : path) : list path :=
  List.filter (fun p => match relative_to p d with Some (_ :: _) => true | _ => false end)
         (map fst (map_to_list fs)).

(** ** [unique_dest] *)

(** [dest.with_name(f"{base}_{i}{suf}")] *)
Definition cand (dest : path) (i : nat) : path :=
  with_name dest (stem dest +:+ "_" +:+ pretty i +:+ suffix dest).

(** The [while True] loop from candidate [i].  The loop of the script has
    no bound; it stops at the first free candidate, and among the
    [size fs + 1] pairwise distinct candidates [1 .. size fs + 1] one is
    free, so [size fs] checks followed by the next candidate is the loop. *)
Fixpoint unique_dest_go (fs : gmap path entry) (dest : path) (i fuel : nat) : path :=
  match fuel with
  | O => cand dest i
  | S fuel' =>
      if exists_ fs (cand dest i) then unique_dest_go fs dest (S i) fuel'
      else cand dest i
  end.

Definition unique_dest (fs : gmap path entry) (dest : path) : path :=
  if exists_ fs dest then unique_dest_go fs dest 1 (stdpp.base.size fs) else dest.

(** ** File-system writes *)

(** [p.relative_to(a)] re-rooted under [b], for the entries a directory
    rename carries along. *)
Definition rekey (a b p : path) : path :=
  match relative_to p a with Some r => b ++ r | None => p end.

Definition move_tree (a b : path) (fs : gmap path entry) : gmap path entry :=
  list_to_map (map (fun pe => (rekey a b pe.1, pe.2)) (map_to_list fs)).

(** [shutil.copytree(src, dst, dirs_exist_ok=True)]: files are overwritten. *)
Definition copytree_fs (src dst : path) (fs : gmap path entry) : gmap path entry :=
  foldr (fun pe acc =>
           match relative_to pe.1 src with
           | Some ((_ :: _) as r) => <[dst ++ r := pe.2]> acc
           | _ => acc
           end) fs (map_to_list fs).

(** [should_skip_by_probe] *)
Definition should_skip_by_probe (info : option probe_info) : bool :=
  match info with
  | None => false
  | Some i =>
      let fmt := Py.lower (default "" (format_name i)) in
      let v := Py.lower (default "" (vcodec i)) in
      let w := width i in
      Py.contains "mp4" fmt && (String.eqb v "h264" || String.eqb v "avc1") && (w <=? 854)
  end.

Section Program.
Context (ARGS : args) (env : oracles).

Definition stat (p : path) : M Z := fun w =>
  match st_size_of (w_fs w) p with
  | Some s => (w, Ok s)
  | None => (w, Raise FileNotFoundError)
  end.

(** [try: s = p.stat().st_size  except FileNotFoundError: ...] *)
Definition stat_opt (p : path) : M (option Z) :=
  try_except (s ← stat p; mret (Some s))
    (fun e => match e with FileNotFoundError => mret None | _ => raise e end).

Definition path_exists (p : path) : M bool := gets (fun w => exists_ (w_fs w) p).

Definition time_sleep (n : Z) : M unit :=
  modify (fun w => set_clock (w_clock w + n) (set_fs (o_sleep env n (w_fs w)) w)).

(** One [mkdir] of [ensure_dir]'s walk from the root. *)
Definition mkdir_one (q : path) : M unit := fun w =>
  match w_fs w !! q with
  | Some Dir => (w, Ok tt)
  | Some (File _) => (w, Raise FileExistsError)
  | None => (add_trace (AMkdir q) (set_fs (<[q := Dir]> (w_fs w)) w), Ok tt)
  end.

Definition prefixes (p : path) : list path :=
  map (fun n => take n p) (seq 1 (length p)).

(** [p.mkdir(parents=True, exist_ok=True)] *)
Definition ensure_dir (p : path) : M unit := forM_ (prefixes p) mkdir_one.

Definition os_rename (a b : path) : M unit := fun w =>
  if o_rename_fails env a b then (w, Raise OSError) else
  match w_fs w !! a, w_fs w !! b with
  | None, _ => (w, Raise FileNotFoundError)
  | Some (File _), Some Dir => (w, Raise IsADirectoryError)
  | Some (File s), _ =>
      (add_trace (ARename a b) (set_fs (<[b := File s]> (delete a (w_fs w))) w), Ok tt)
  | Some Dir, _ => (add_trace (ARename a b) (set_fs (move_tree a b (w_fs w)) w), Ok tt)
  end.

(** [shutil.copy2(a, b)] *)
Definition copy2 (a b : path) : M unit := fun w =>
  let b' := if is_dir (w_fs w) b then b ++ [name a] else b in
  match w_fs w !! a with
  | None => (w, Raise FileNotFoundError)
  | Some Dir => (w, Raise IsADirectoryError)
  | Some (File s) => (add_trace (ACopy a b') (set_fs (<[b' := File s]> (w_fs w)) w), Ok tt)
  end.

(** [p.unlink()] *)
Definition os_unlink (p : path) : M unit := fun w =>
  if o_unlink_fails env p then (w, Raise OSError) else
  match w_fs w !! p with
  | None => (w, Raise FileNotFoundError)
  | Some Dir => (w, Raise IsADirectoryError)
  | Some (File _) => (add_trace (AUnlink p) (set_fs (delete p (w_fs w)) w), Ok tt)
  end.

(** [mark]: the upsert of [ON CONFLICT(path) DO UPDATE]; [added_at] is kept. *)
Definition mark (p : path) (status : string) (note : option string) : M unit := fun w =>
  let ts := w_clock w in
  let r := match w_db w !! p with
           | Some old => {| fr_status := status; fr_added_at := fr_added_at old;
                            fr_updated_at := ts; fr_note := note |}
           | None => {| fr_status := status; fr_added_at := ts;
                        fr_updated_at := ts; fr_note := note |}
           end in
  (add_trace (AMark p status) (set_db (<[p := r]> (w_db w)) w), Ok tt).

Definition status_of (p : path) : M (option string) :=
  gets (fun w => fr_status <$> w_db w !! p).

(** [file_is_stable] *)
Definition file_is_stable (p : path) (wait : Z) : M bool :=
  s1 ← stat_opt p;
  match s1 with
  | None => mret false
  | Some s1 =>
      time_sleep wait;;
      s2 ← stat_opt p;
      match s2 with
      | None => mret false
      | Some s2 => mret ((s1 =? s2) && (0 <? s1))
      end
  end.

Definition probe_video (p : path) : M (option probe_info) :=
  gets (fun w => o_probe env (w_fs w) p).

(** [transcode_with_handbrake] *)
Definition transcode_with_handbrake (src dest_tmp : path) : M Z :=
  if dry_run ARGS then mret 0 else
  fun w =>
    let '(rc, out) := o_handbrake env src dest_tmp in
    let fs' := match out with
               | Some s => <[dest_tmp := File s]> (w_fs w)
               | None => w_fs w
               end in
    (set_fs fs' (add_trace (AHandBrake src dest_tmp) w), Ok rc).

(** [move_safe] *)
Definition move_safe (src dest_dir : path) : M path :=
  ensure_dir dest_dir;;
  dest ← gets (fun w => unique_dest (w_fs w) (dest_dir ++ [name src]));
  if dry_run ARGS then mret dest else
  try_except (os_rename src dest)
    (fun _ => copy2 src dest;; try_pass (os_unlink src));;
  mret dest.

(** [copy_tree_safe] *)
Definition copy_tree_safe (src_dir dest_dir : path) : M unit :=
  ensure_dir dest_dir;;
  if dry_run ARGS then mret tt else
  modify (fun w => add_trace (ACopyTree src_dir dest_dir)
                     (set_fs (copytree_fs src_dir dest_dir (w_fs w)) w)).

(** [ask_confirm] *)
Definition ask_confirm (prompt : string) : M bool :=
  if dry_run ARGS then mret true else mret (o_answer env prompt).

(** The idempotency gate of [process_movie_file]. *)
Definition gated (s : option string) : bool :=
  match s with
  | Some st => existsb (String.eqb st)
                 ["processing"; "done_moved"; "skipped_moved"; "kept_original_moved"; "copied_season"]
  | None => false
  end.

(** [if dest_final.exists(): dest_final = unique_dest(dest_final)] *)
Definition choose_dest_final (dest_final : path) : M path :=
  there ← path_exists dest_final;
  if (there : bool) then gets (fun w => unique_dest (w_fs w) dest_final) else mret dest_final.

(** Lines 293-315 of [process_movie_file]: the comparison of the sizes of
    the original [src] ([orig_size]) and of the transcode [dest_tmp]
    ([new_size]). *)
Definition size_comparison_step (src downloads_root output_root dest_tmp : path)
    (orig_size new_size : Z) : M unit :=
  if orig_size <=? new_size then
    (if dry_run ARGS then mret tt else try_pass (os_unlink dest_tmp));;
    rel ← lift_rel (relative_to src downloads_root);
    moved ← move_safe src (parent (output_root ++ rel));
    mark src "kept_original_moved" (Some ("moved original to " +:+ path_str moved))
  else
    rel ← lift_rel (relative_to src downloads_root);
    dest_final ← choose_dest_final (with_suffix (output_root ++ rel) ".mp4");
    try_except
      ((if dry_run ARGS then mret tt
        else os_rename dest_tmp dest_final;; try_pass (os_unlink src));;
       mark src "done_moved" (Some ("moved transcode to " +:+ path_str dest_final)))
      (fun e => mark src "error" (Some ("move_failed:" +:+ exn_str e))).

(** Lines 273-315 of [process_movie_file]: the transcode branch. *)
Definition transcode_step (src downloads_root output_root : path) : M unit :=
  mark src "queued" (Some "ready");;
  rel ← lift_rel (relative_to src downloads_root);
  let dest_tmp := with_suffix (output_root ++ rel) (".mp4" +:+ TEMP_SUFFIX) in
  ensure_dir (parent dest_tmp);;
  rc ← transcode_with_handbrake src dest_tmp;
  if negb (rc =? 0) then
    mark src "error" (Some ("handbrake_exit_" +:+ pretty rc));;
    there ← path_exists dest_tmp;
    (if (there : bool) then try_pass (os_unlink dest_tmp) else mret tt)
  else
    there ← path_exists dest_tmp;
    if negb (there : bool) then mark src "error" (Some "no_output") else
    sizes ← try_except (o ← stat src; n ← stat dest_tmp; mret (Some (o, n)))
                       (fun _ => mret None);
    match sizes with
    | None => mark src "error" (Some "stat_failed")
    | Some (o, n) => size_comparison_step src downloads_root output_root dest_tmp o n
    end.

(** Lines 265-315 of [process_movie_file]: probe, then skip or transcode. *)
Definition probe_step (src downloads_root output_root : path) : M unit :=
  info ← probe_video src;
  if should_skip_by_probe info then
    rel ← lift_rel (relative_to src downloads_root);
    moved ← move_safe src (parent (output_root ++ rel));
    mark src "skipped_moved" (Some ("moved to " +:+ path_str moved))
  else transcode_step src downloads_root output_root.

(** [process_movie_file] *)
Definition process_movie_file (src downloads_root output_root : path) : M unit :=
  s ← status_of src;
  if gated s then mret tt else
  if is_temporary_name (name src) then mret tt else
  ok ← (if confirm ARGS then ask_confirm ("Process file: " +:+ path_str src +:+ "?")
        else mret true);
  if negb ok then mark src "skipped_by_user" (Some "user skipped") else
  stable ← file_is_stable src SIZE_STABLE_SECONDS;
  if negb stable then mret tt else
  probe_step src downloads_root output_root.

(** ** Posters *)

(** [open(dest, "wb").write(poster)] *)
Definition write_file (dest : path) (sz : Z) : M unit := fun w =>
  match w_fs w !! dest with
  | Some Dir => (w, Raise IsADirectoryError)
  | _ => (add_trace (APoster dest) (set_fs (<[dest := File sz]> (w_fs w)) w), Ok tt)
  end.

(** [fetch_and_save_show_poster]; the TMDb search and download are [o_poster]. *)
Definition fetch_and_save_show_poster (show_name : string) (out_root : path)
    (api_key : option string) (downloads_root : path) (posters_only : bool) : M bool :=
  match api_key with
  | None => mret false
  | Some _ =>
      try_except
        (match o_poster env show_name with
         | None => mret false
         | Some sz =>
             if sz =? 0 then mret false else
             let dest := (if posters_only then downloads_root else out_root)
                           ++ [show_name +:+ ".jpg"] in
             if dry_run ARGS then mret true else
             ensure_dir (parent dest);; write_file dest sz;; mret true
         end)
        (fun _ => mret false)
  end.

(** ** Shows and seasons *)

(** [f.is_file() and f.suffix.lower() in VIDEO_EXTS] *)
Definition is_video_file (fs : gmap path entry) (f : path) : bool :=
  is_file fs f && is_video_name f.

(** [collect_videos_two_depth]: the dictionary as its list of items, in
    insertion order. *)
Definition collect_videos_two_depth (fs : gmap path entry) (top : path)
    : list (string * list path) :=
  let direct := List.filter (is_video_file fs) (iterdir fs top) in
  let seasons :=
    flat_map (fun d =>
      let vids :=
        flat_map (fun f =>
          if is_video_file fs f then [f]
          else if is_dir fs f then List.filter (is_video_file fs) (rglob fs f)
          else []) (iterdir fs d) in
      match vids with [] => [] | _ => [(name d, vids)] end)
      (List.filter (is_dir fs) (iterdir fs top)) in
  match direct with [] => [] | _ => [("", direct)] end ++ seasons.

(** [st in ("skipped_moved", "kept_original_moved")] *)
Definition needs_copy_status (st : option string) : bool :=
  match st with
  | Some s => String.eqb s "skipped_moved" || String.eqb s "kept_original_moved"
  | None => false
  end.

(** [season_needs_copy.add(k)] on a set kept in insertion order. *)
Definition set_add (k : string) (l : list string) : list string :=
  if existsb (String.eqb k) l then l else l ++ [k].

(** The inner loop over the videos of one group. *)
Fixpoint process_group (downloads_root output_root : path) (season : string)
    (videos : list path) (needs : list string) : M (list string) :=
  match videos with
  | [] => mret needs
  | vid :: videos' =>
      process_movie_file vid downloads_root output_root;;
      st ← status_of vid;
      process_group downloads_root output_root season videos'
        (if needs_copy_status st then set_add season needs else needs)
  end.

(** The loop over the seasons, [""] skipped. *)
Fixpoint process_seasons (downloads_root output_root : path)
    (mapping : list (string * list path)) (needs : list string) : M (list string) :=
  match mapping with
  | [] => mret needs
  | (season, videos) :: mapping' =>
      needs' ← (if String.eqb season "" then mret needs
                else process_group downloads_root output_root season videos needs);
      process_seasons downloads_root output_root mapping' needs'
  end.

(** [mapping.get(k)] *)
Fixpoint dict_get (k : string) (mapping : list (string * list path)) : option (list path) :=
  match mapping with
  | [] => None
  | (k', v) :: mapping' => if String.eqb k k' then Some v else dict_get k mapping'
  end.

(** The decision phase of [process_show_topdir]: direct files, then seasons. *)
Definition process_groups (downloads_root output_root : path)
    (mapping : list (string * list path)) : M (list string) :=
  needs ← (match dict_get "" mapping with
           | Some vids => process_group downloads_root output_root "" vids []
           | None => mret []
           end);
  process_seasons downloads_root output_root mapping needs.

(** The [src_dir] and [dest_dir] of the season key [sk]. *)
Definition season_src_dir (topdir : path) (sk : string) : path :=
  if String.eqb sk "" then topdir else topdir ++ [sk].
Definition season_dest_dir (output_root rel : path) (sk : string) : path :=
  if String.eqb sk "" then output_root ++ rel else output_root ++ (rel ++ [sk]).

(** One iteration of the season-level copy loop. *)
Definition consolidate_season (topdir downloads_root output_root : path) (sk : string)
    : M unit :=
  rel ← lift_rel (relative_to topdir downloads_root);
  let src_dir := season_src_dir topdir sk in
  let dest_dir := season_dest_dir output_root rel sk in
  there ← path_exists src_dir;
  if (there : bool) then
    copy_tree_safe src_dir dest_dir;;
    files ← gets (fun w => rglob (w_fs w) src_dir);
    forM_ files (fun f =>
      isv ← gets (fun w => is_video_file (w_fs w) f);
      if (isv : bool) then mark f "copied_season" (Some ("season copied to " +:+ path_str dest_dir))
      else mret tt)
  else mret tt.

(** [process_show_topdir] *)
Definition process_show_topdir (topdir downloads_root output_root : path)
    (tmdb_key : option string) : M unit :=
  mapping ← gets (fun w => collect_videos_two_depth (w_fs w) topdir);
  match mapping with
  | [] => mret tt
  | _ =>
      needs ← process_groups downloads_root output_root mapping;
      forM_ (o_set_iter env needs) (consolidate_season topdir downloads_root output_root);;
      if negb (no_posters ARGS) && negb (posters_only ARGS) then
        fetch_and_save_show_poster (name topdir) output_root tmdb_key downloads_root false;;
        mret tt
      else mret tt
  end.

(** ** The scan loop *)

(** [sample = v[0]] of the first non-empty group. *)
Fixpoint first_sample (mapping : list (string * list path)) : option path :=
  match mapping with
  | [] => None
  | (_, v :: _) :: _ => Some v
  | (_, []) :: mapping' => first_sample mapping'
  end.

(** The body of the [for entry in sorted(downloads.iterdir())] loop; the
    result is whether it set [any_found]. *)
Definition scan_entry (downloads output : path) (tmdb_key : option string) (entry : path)
    : M bool :=
  if Py.startswith "." (name entry) then mret false else
  if posters_only ARGS then
    isd ← gets (fun w => is_dir (w_fs w) entry);
    if (isd : bool) then
      ok ← (if confirm ARGS then ask_confirm ("Fetch poster for " +:+ name entry +:+ "?")
            else mret true);
      if (ok : bool) then
        fetch_and_save_show_poster (name entry) output tmdb_key downloads true;; mret true
      else mret true
    else mret false
  else if is_temporary_name (name entry) then mret false else
  fs ← gets w_fs;
  if is_dir fs entry then
    let mapping := collect_videos_two_depth fs entry in
    match mapping with
    | [] => mret false
    | _ =>
        match first_sample mapping with
        | Some sample =>
            stable ← file_is_stable sample SIZE_STABLE_SECONDS;
            if negb stable then mret true
            else process_show_topdir entry downloads output tmdb_key;; mret true
        | None => process_show_topdir entry downloads output tmdb_key;; mret true
        end
    end
  else if is_file fs entry then
    if negb (is_video_name entry) then mret false
    else process_movie_file entry downloads output;; mret true
  else mret false.

(** [sorted] on paths: lexicographic on the components. *)
Fixpoint path_leb (p q : path) : bool :=
  match p, q with
  | [], _ => true
  | _ :: _, [] => false
  | c :: p', d :: q' => if String.eqb c d then path_leb p' q' else String.ltb c d
  end.

Definition path_le (p q : path) : Prop := path_leb p q = true.
Global Instance path_le_dec : RelDecision path_le.
Proof. intros p q. unfold path_le. apply _. Defined.

Fixpoint scan_entries (downloads output : path) (tmdb_key : option string)
    (entries : list path) (any_found : bool) : M bool :=
  match entries with
  | [] => mret any_found
  | e :: entries' =>
      found ← scan_entry downloads output tmdb_key e;
      scan_entries downloads output tmdb_key entries' (any_found || found)
  end.

(** One pass of the [while True] loop of [scan_and_process], up to the
    poll sleep. *)
Definition scan_pass (downloads output : path) (tmdb_key : option string) : M bool :=
  entries ← gets (fun w => merge_sort path_le (iterdir (w_fs w) downloads));
  scan_entries downloads output tmdb_key entries false.

(** [scan_and_process], for the [passes] passes that run before the
    operator's interrupt. *)
Fixpoint scan_passes (downloads output : path) (poll_interval : Z) (one_shot : bool)
    (tmdb_key : option string) (passes : nat) : M unit :=
  match passes with
  | O => mret tt
  | S passes' =>
      scan_pass downloads output tmdb_key;;
      if one_shot then mret tt
      else time_sleep poll_interval;;
           scan_passes downloads output poll_interval one_shot tmdb_key passes'
  end.

Definition scan_and_process (downloads output : path) (poll_interval : Z) (one_shot : bool)
    (tmdb_key : option string) (passes : nat) : M unit :=
  ensure_dir downloads;; ensure_dir output;;
  scan_passes downloads output poll_interval one_shot tmdb_key passes.

(** ** The unused helper [rel_output_path] *)

Definition rel_output_path (downloads_root src output_root : path) : M path :=
  rel ← lift_rel (relative_to src downloads_root);
  let dest := output_root ++ rel in
  ensure_dir (parent dest);;
  mret dest.

(** ** Start-up *)

(** [reset_db]: the database file is deleted ([FileNotFoundError] ignored);
    [init_db] then starts from an empty table. *)
Definition reset_db : M unit := modify (set_db ∅).

(** The command-line options [main] reads besides the global [ARGS]
    flags; an absent or empty [--downloads] / [--output] is [None]. *)
Record cli := {
  cli_reset_db : bool;
  cli_downloads : option path;
  cli_output : option path;
  cli_poll : Z;
  cli_one_shot : bool
}.

(** [main] after [parse_args]: [prompted] is what [prompt_paths] returns,
    [default_output] is [DEFAULT_OUTPUT], [file_key] what [load_tmdb_key]
    returns, and [passes] the passes of the scan loop before the operator's
    interrupt.  The result is the exit status of a [sys.exit], if any. *)
Definition main_run (c : cli) (prompted : path * path * Z) (default_output : path)
    (file_key : option string) (passes : nat) : M (option Z) :=
  (if cli_reset_db c then reset_db else mret tt);;
  let '(downloads, output, poll) :=
    match cli_downloads c with
    | Some d => (d, default default_output (cli_output c), cli_poll c)
    | None => prompted
    end in
  if posters_only ARGS && no_posters ARGS then mret (Some 1%Z) else
  let tmdb_key := if no_posters ARGS then None else file_key in
  scan_and_process downloads output poll (cli_one_shot c) tmdb_key passes;;
  mret None.

End Program.

(** * Concrete configurations *)

Module Fixtures.

Definition args_run : args :=
  {| dry_run := false; confirm := false; no_posters := true; posters_only := false |}.
Definition args_dry : args :=
  {| dry_run := true; confirm := false; no_posters := true; posters_only := false |}.

(** An outside world given by its probe, transcoder, refusals and the
    writes that happen during a sleep; the operator answers yes. *)
Definition env_with (probe : gmap path entry -> path -> option probe_info)
    (hb : path -> path -> Z * option Z) (rename_fails : path -> path -> bool)
    (unlink_fails : path -> bool) (sleep : Z -> gmap path entry -> gmap path entry)
    : oracles :=
  {| o_answer := fun _ => true; o_sleep := sleep; o_probe := probe; o_handbrake := hb;
     o_rename_fails := rename_fails; o_unlink_fails := unlink_fails;
     o_poster := fun _ => None; o_set_iter := fun l => l |}.

Definition world_of (fs : list (path * entry)) (db : list (path * file_record)) : world :=
  {| w_fs := list_to_map fs; w_db := list_to_map db; w_clock := 0; w_trace := [] |}.

Definition rec_of (st : string) : file_record :=
  {| fr_status := st; fr_added_at := 0; fr_updated_at := 0; fr_note := None |}.

(** What ffprobe reports for a small H.264 MP4, and for a 1080p HEVC MKV. *)
Definition probe_small : probe_info :=
  {| vcodec := Some "h264"; width := 720; height := 480; format_name := Some "mp4"; size := 100 |}.
Definition probe_hd : probe_info :=
  {| vcodec := Some "hevc"; width := 1920; height := 1080;
     format_name := Some "matroska,webm"; size := 100 |}.

Definition dl : path := ["dl"].
Definition out : path := ["out"].
Definition movie : path := ["dl"; "m.mkv"].
Definition movie_tmp : path := ["out"; "m.mp4.transcoding"].
Definition film : path := ["dl"; "Film"; "f.mp4"].

(** Every probe says [p]; the file system does not change during a sleep. *)
Definition env_probe (p : option probe_info) (hb : Z * option Z)
    (rename_fails unlink_fails : bool) : oracles :=
  env_with (fun _ _ => p) (fun _ _ => hb) (fun _ _ => rename_fails)
           (fun _ => unlink_fails) (fun _ fs => fs).

(** One movie of 100 bytes in the downloads root, an empty output root. *)
Definition w_movie (db : list (path * file_record)) : world :=
  world_of [(dl, Dir); (movie, File 100); (out, Dir)] db.

(** A film of 100 bytes in its own folder of the downloads root. *)
Definition w_film : world :=
  world_of [(dl, Dir); (["dl"; "Film"], Dir); (film, File 100); (out, Dir)] [].

(** A movie that is still being written: the sleep of the stability
    check sees it grow. *)
Definition env_grow : oracles :=
  env_with (fun _ _ => None) (fun _ _ => (0%Z, None)) (fun _ _ => false) (fun _ => false)
           (fun _ fs => <[movie := File 200]> fs).

(** A show with one episode at its top and one in a season folder; the
    top episode is still being written. *)
Definition show : path := ["dl"; "Show"].
Definition ep1 : path := ["dl"; "Show"; "e1.mkv"].
Definition ep2 : path := ["dl"; "Show"; "S2"; "e2.mkv"].
Definition w_show : world :=
  world_of [(dl, Dir); (show, Dir); (ep1, File 100); (["dl"; "Show"; "S2"], Dir);
            (ep2, File 300); (out, Dir)] [].
Definition env_grow_show : oracles :=
  env_with (fun _ _ => None) (fun _ _ => (0%Z, None)) (fun _ _ => false) (fun _ => false)
           (fun _ fs => <[ep1 := File 200]> fs).

(** A [movie.mp4] to move into an output folder that already has one. *)
Definition movie_mp4 : path := ["dl"; "movie.mp4"].
Definition w_collide : world :=
  world_of [(dl, Dir); (movie_mp4, File 100); (out, Dir); (["out"; "movie.mp4"], File 7)] [].

(** The movie and a 50-byte transcode of it at the temporary path. *)
Definition w_transcoded : world :=
  world_of [(dl, Dir); (movie, File 100); (out, Dir); (movie_tmp, File 50)] [].

(** A probe that lets the file through, and transcoders that fail. *)
Definition env_small : oracles := env_probe (Some probe_small) (0%Z, None) false false.
Definition env_hb_fails : oracles := env_probe None (1%Z, Some 5%Z) false false.
Definition env_hb_fails_locked : oracles := env_probe None (1%Z, Some 5%Z) false true.
(** A transcoder that writes 50 bytes, with and without refused renames. *)
Definition env_hb_50 : oracles := env_probe None (0%Z, Some 50%Z) false false.
Definition env_hb_50_no_rename : oracles := env_probe None (0%Z, Some 50%Z) true false.

(** A show [T] with [a.mp4] at its top and [b.avi] in the season folder
    [S2]. *)
Definition show_t : path := ["dl"; "T"].
Definition ep_a : path := ["dl"; "T"; "a.mp4"].
Definition ep_b : path := ["dl"; "T"; "S2"; "b.avi"].
Definition ep_c : path := ["dl"; "T"; "c.mkv"].
Definition w_show_t : world :=
  world_of [(dl, Dir); (show_t, Dir); (ep_a, File 100); (["dl"; "T"; "S2"], Dir);
            (ep_b, File 100); (out, Dir)] [].

(** The same show with a 1080p [c.mkv] at its top as well. *)
Definition w_show_tc : world :=
  world_of [(dl, Dir); (show_t, Dir); (ep_a, File 100); (ep_c, File 100);
            (["dl"; "T"; "S2"], Dir); (ep_b, File 100); (out, Dir)] [].

(** [c.mkv] probes as 1080p HEVC and its transcode fails; the other files
    probe as small H.264 MP4s. *)
Definition env_c_fails : oracles :=
  env_with (fun _ p => if bool_decide (p = ep_c) then Some probe_hd else Some probe_small)
           (fun _ _ => (1%Z, None)) (fun _ _ => false) (fun _ => false) (fun _ fs => fs).

(** [shutil.rmtree(d)] *)
Definition remove_tree (d : path) (fs : gmap path entry) : gmap path entry :=
  list_to_map (List.filter (fun pe : path * entry =>
                 match relative_to pe.1 d with Some _ => false | None => true end)
               (map_to_list fs)).

(** The download client deletes the show folder once [a.mp4] has left it. *)
Definition env_vanish : oracles :=
  env_with (fun _ _ => Some probe_small) (fun _ _ => (0%Z, None)) (fun _ _ => false)
           (fun _ => false)
           (fun _ fs => if exists_ fs ep_a then fs else remove_tree show_t fs).

(** Posters-only mode, and the flags that conflict. *)
Definition args_posters : args :=
  {| dry_run := false; confirm := false; no_posters := false; posters_only := true |}.
Definition args_conflict : args :=
  {| dry_run := false; confirm := false; no_posters := true; posters_only := true |}.

(** [--reset-db --downloads dl --one-shot] *)
Definition cli_reset : cli :=
  {| cli_reset_db := true; cli_downloads := Some dl; cli_output := None; cli_poll := 20;
     cli_one_shot := true |}.

End Fixtures.

(** * Running the monad *)

Section Run.
Context (ARGS : args) (env : oracles).

Lemma run_bind {A B} (m : M A) (f : A -> M B) (w : world) :
  (m ≫= f) w = match m w with
               | (w', Ok a) => f a w'
               | (w', Raise e) => (w', Raise e)
               end.
Proof. reflexivity. Qed.

Lemma run_ret {A} (a : A) (w : world) : (mret a : M A) w = (w, Ok a).
Proof. reflexivity. Qed.

(** Names the final world and result of a run that a statement destructs. *)
Ltac gen_run :=
  match goal with |- match ?m with pair _ _ => _ end => destruct m as [? ?] end.

Lemma stat_opt_run (p : path) (w : world) :
  stat_opt p w = (w, Ok (st_size_of (w_fs w) p)).
Proof.
  unfold stat_opt, try_except. rewrite run_bind. unfold stat.
  by destruct (st_size_of (w_fs w) p).
Qed.

(** The world after [time.sleep(n)]. *)
Definition slept (n : Z) (w : world) : world :=
  set_clock (w_clock w + n) (set_fs (o_sleep env n (w_fs w)) w).

Lemma file_is_stable_run (p : path) (wait : Z) (w : world) :
  file_is_stable env p wait w =
  match st_size_of (w_fs w) p with
  | None => (w, Ok false)
  | Some s1 =>
      (slept wait w,
       Ok (match st_size_of (o_sleep env wait (w_fs w)) p with
           | None => false
           | Some s2 => (s1 =? s2) && (0 <? s1)
           end))
  end.
Proof.
  unfold file_is_stable. rewrite run_bind, stat_opt_run.
  destruct (st_size_of (w_fs w) p) as [s1|]; [|reflexivity].
  rewrite run_bind. unfold time_sleep, modify. cbv beta iota.
  rewrite run_bind, stat_opt_run. simpl.
  by destruct (st_size_of (o_sleep env wait (w_fs w)) p).
Qed.

(** * The Stability Detector *)

(** C6: [file_is_stable] answers [True] exactly when both size samples
    exist, are equal and are positive; it never raises, writes no status
    and performs no mutation. *)
Theorem file_is_stable_spec (p : path) (wait : Z) (w : world) :
  let '(w', r) := file_is_stable env p wait w in
  w_db w' = w_db w /\ w_trace w' = w_trace w /\
  exists b, r = Ok b /\
    (b = true <->
     exists s, st_size_of (w_fs w) p = Some s /\
               st_size_of (o_sleep env wait (w_fs w)) p = Some s /\ 0 < s).
Proof.
  rewrite file_is_stable_run.
  destruct (st_size_of (w_fs w) p) as [s1|] eqn:H1.
  - repeat split; [reflexivity..|]. eexists; split; [reflexivity|].
    destruct (st_size_of (o_sleep env wait (w_fs w)) p) as [s2|] eqn:H2.
    + rewrite andb_true_iff, Z.eqb_eq, Z.ltb_lt. split.
      * intros [-> ?]. eauto.
      * intros (s & [= <-] & [= <-] & ?). done.
    + split; [discriminate|]. intros (s & _ & [=] & _).
  - repeat split; [reflexivity..|]. eexists; split; [reflexivity|].
    split; [discriminate|]. intros (s & [=] & _).
Qed.

(** * The stability gate of the Decision Engine *)

(** C8: a file that passes the idempotency, temp-name and confirmation
    gates and that the Stability Detector judges unstable leaves the
    status table as it was, performs no mutation, and is still not gated
    for the next pass. *)
Theorem process_movie_file_unstable_no_status (src dl out : path) (w : world) :
  gated (fr_status <$> w_db w !! src) = false ->
  is_temporary_name (name src) = false ->
  (confirm ARGS = true -> dry_run ARGS = false ->
   o_answer env ("Process file: " +:+ path_str src +:+ "?") = true) ->
  snd (file_is_stable env src SIZE_STABLE_SECONDS w) = Ok false ->
  let '(w', r) := process_movie_file ARGS env src dl out w in
  r = Ok tt /\ w_db w' = w_db w /\ w_trace w' = w_trace w /\
  gated (fr_status <$> w_db w' !! src) = false.
Proof.
  intros Hgate Htemp Hconf Hunst.
  pose proof (file_is_stable_spec src SIZE_STABLE_SECONDS w) as Hspec.
  destruct (file_is_stable env src SIZE_STABLE_SECONDS w) as [w1 r1] eqn:Hst.
  simpl in Hunst. subst r1. destruct Hspec as (Hdb & Htr & _).
  unfold process_movie_file. rewrite run_bind. unfold status_of, gets.
  cbv beta iota. rewrite Hgate, Htemp.
  destruct (confirm ARGS) eqn:Hc.
  - unfold ask_confirm. destruct (dry_run ARGS) eqn:Hd.
    + rewrite run_bind, run_ret. simpl. rewrite run_bind, Hst. simpl.
      rewrite Hdb. auto.
    + rewrite run_bind, run_ret, Hconf by reflexivity. simpl.
      rewrite run_bind, Hst. simpl. rewrite Hdb. auto.
  - rewrite run_bind, run_ret. simpl. rewrite run_bind, Hst. simpl.
    rewrite Hdb. auto.
Qed.

(** * The per-show stability sample of the scan loop *)

(** C10: for a show directory whose grouping starts with the group
    [(k, sample :: vs)], the scan loop checks the stability of [sample]
    alone; when it is unstable the whole directory is skipped for the
    pass: no status is written and nothing is mutated, whatever the other
    files of the show are. *)
Theorem scan_entry_unstable_sample_skips_show (dl out entry sample : path)
    (key : option string) (k : string) (vs : list path)
    (rest : list (string * list path)) (w : world) :
  Py.startswith "." (name entry) = false ->
  posters_only ARGS = false ->
  is_temporary_name (name entry) = false ->
  is_dir (w_fs w) entry = true ->
  collect_videos_two_depth (w_fs w) entry = (k, sample :: vs) :: rest ->
  snd (file_is_stable env sample SIZE_STABLE_SECONDS w) = Ok false ->
  let '(w', r) := scan_entry ARGS env dl out key entry w in
  r = Ok true /\ w_db w' = w_db w /\ w_trace w' = w_trace w.
Proof.
  intros Hhid Hpo Htemp Hdir Hcol Hunst.
  pose proof (file_is_stable_spec sample SIZE_STABLE_SECONDS w) as Hspec.
  destruct (file_is_stable env sample SIZE_STABLE_SECONDS w) as [w1 r1] eqn:Hst.
  simpl in Hunst. subst r1. destruct Hspec as (Hdb & Htr & _).
  unfold scan_entry. rewrite Hhid, Hpo, Htemp.
  rewrite run_bind. unfold gets. cbv beta iota. rewrite Hdir, Hcol. simpl.
  rewrite run_bind, Hst. simpl. auto.
Qed.

(** * Candidate names of [unique_dest] *)

Lemma string_app_nil (c : string) : "" +:+ c = c.
Proof. reflexivity. Qed.

Lemma string_app_cons (x : ascii) (a c : string) : String x a +:+ c = String x (a +:+ c).
Proof. reflexivity. Qed.

Lemma string_length_app (a b : string) :
  String.length (a +:+ b) = (String.length a + String.length b)%nat.
Proof.
  induction a as [|x a IH]; [reflexivity|].
  rewrite string_app_cons. simpl. by rewrite IH.
Qed.

Lemma string_app_cancel_r (a b c : string) : a +:+ c = b +:+ c -> a = b.
Proof.
  revert b. induction a as [|x a IH]; intros [|y b] H.
  - reflexivity.
  - exfalso. apply (f_equal String.length) in H.
    rewrite !string_length_app in H. simpl in H. lia.
  - exfalso. apply (f_equal String.length) in H.
    rewrite !string_length_app in H. simpl in H. lia.
  - rewrite !string_app_cons in H. injection H as -> H. f_equal. by apply IH.
Qed.

Lemma cand_inj (dest : path) (i j : nat) : cand dest i = cand dest j -> i = j.
Proof.
  unfold cand, with_name. intros H.
  apply app_inv_head in H. injection H as H.
  apply (inj (String.app _)) in H. apply (inj (String.app _)) in H.
  apply string_app_cancel_r in H. by apply (inj pretty) in H.
Qed.

(** The search loop stops at the first free candidate, or after [fuel]
    taken ones. *)
Lemma unique_dest_go_spec (fs : gmap path entry) (dest : path) (fuel i : nat) :
  exists k, (k <= fuel)%nat /\
    unique_dest_go fs dest i fuel = cand dest (i + k) /\
    (forall j, (i <= j < i + k)%nat -> exists_ fs (cand dest j) = true) /\
    ((k < fuel)%nat -> exists_ fs (cand dest (i + k)) = false).
Proof.
  revert i. induction fuel as [|fuel IH]; intros i; simpl.
  - exists 0%nat. rewrite Nat.add_0_r. split; [lia|]. split; [reflexivity|].
    split; [intros; lia|]. lia.
  - destruct (exists_ fs (cand dest i)) eqn:He.
    + destruct (IH (S i)) as (k & Hk & Heq & Hall & Hlast).
      exists (S k). split; [lia|]. rewrite Heq.
      replace (S i + k)%nat with (i + S k)%nat by lia. split; [reflexivity|].
      split.
      * intros j Hj. destruct (decide (j = i)) as [->|]; [exact He|]. apply Hall. lia.
      * intros Hlt. replace (i + S k)%nat with (S i + k)%nat by lia. apply Hlast. lia.
    + exists 0%nat. rewrite Nat.add_0_r. split; [lia|]. split; [reflexivity|].
      split; [intros; lia|]. intros _. exact He.
Qed.

(** Pigeonhole: the candidates [1 .. size fs + 1] cannot all be taken. *)
Lemma cand_not_all_taken (fs : gmap path entry) (dest : path) :
  ~ (forall j, (1 <= j <= S (stdpp.base.size fs))%nat -> exists_ fs (cand dest j) = true).
Proof.
  intros Hall.
  set (L := map (cand dest) (seq 1 (S (stdpp.base.size fs)))).
  assert (HL : List.NoDup L).
  { unfold L. generalize (NoDup_seq 1 (S (stdpp.base.size fs))).
    generalize (seq 1 (S (stdpp.base.size fs))). intros l0 Hl0.
    induction Hl0 as [|x l Hx Hl IH]; simpl; constructor; [|exact IH].
    intros Hin. apply in_map_iff in Hin as (y & Hy & Hyl).
    apply cand_inj in Hy. subst. apply Hx. by apply list_elem_of_In. }
  assert (Hincl : incl L (map fst (map_to_list fs))).
  { intros q Hq. unfold L in Hq. apply in_map_iff in Hq as (j & <- & Hj).
    apply in_seq in Hj. specialize (Hall j ltac:(lia)).
    unfold exists_ in Hall. apply bool_decide_eq_true in Hall as [e He].
    apply in_map_iff. exists (cand dest j, e). split; [reflexivity|].
    apply list_elem_of_In. by apply elem_of_map_to_list. }
  pose proof (NoDup_incl_length HL Hincl) as Hlen.
  unfold L in Hlen. rewrite !length_map, length_seq, length_map_to_list in Hlen. lia.
Qed.

(** [unique_dest] returns a path that does not exist. *)
Lemma unique_dest_fresh (fs : gmap path entry) (dest : path) :
  exists_ fs (unique_dest fs dest) = false.
Proof.
  unfold unique_dest. destruct (exists_ fs dest) eqn:Hd; [|exact Hd].
  destruct (unique_dest_go_spec fs dest (stdpp.base.size fs) 1) as (k & Hk & -> & Hall & Hlast).
  destruct (decide (k < stdpp.base.size fs)%nat) as [Hlt|Hge]; [by apply Hlast|].
  assert (k = stdpp.base.size fs) as -> by lia.
  destruct (exists_ fs (cand dest (1 + stdpp.base.size fs))) eqn:Hc; [|reflexivity].
  exfalso. apply (cand_not_all_taken fs dest). intros j Hj.
  destruct (decide (j = S (stdpp.base.size fs))) as [->|]; [exact Hc|]. apply Hall. lia.
Qed.

(** [unique_dest] returns [dest] when it is free, and otherwise the first
    free [stem_i.suffix], all earlier candidates being taken. *)
Lemma unique_dest_shape (fs : gmap path entry) (dest : path) :
  (exists_ fs dest = false /\ unique_dest fs dest = dest) \/
  (exists_ fs dest = true /\ exists i, (1 <= i)%nat /\ unique_dest fs dest = cand dest i /\
     forall j, (1 <= j < i)%nat -> exists_ fs (cand dest j) = true).
Proof.
  unfold unique_dest. destruct (exists_ fs dest) eqn:Hd; [right|left; auto].
  split; [reflexivity|].
  destruct (unique_dest_go_spec fs dest (stdpp.base.size fs) 1) as (k & Hk & -> & Hall & _).
  exists (1 + k)%nat. split; [lia|]. split; [reflexivity|]. exact Hall.
Qed.

(** * [ensure_dir] *)

(** No regular file lies on the way to [p]: [mkdir(parents=True)] succeeds. *)
Definition dir_creatable (fs : gmap path entry) (p : path) : bool :=
  forallb (fun q => negb (is_file fs q)) (prefixes p).

Lemma prefixes_length (p q : path) : q ∈ prefixes p -> (length q <= length p)%nat.
Proof.
  unfold prefixes. intros Hq. apply list_elem_of_In, in_map_iff in Hq as (n & <- & _).
  rewrite length_take. lia.
Qed.

Lemma forM_mkdir_frame (l : list path) (w w' : world) (r : result unit) :
  forM_ l mkdir_one w = (w', r) ->
  w_db w' = w_db w /\ w_clock w' = w_clock w /\
  (forall q e, w_fs w !! q = Some e -> w_fs w' !! q = Some e) /\
  (forall q, q ∉ l -> w_fs w' !! q = w_fs w !! q) /\
  (forall q, is_file (w_fs w') q = is_file (w_fs w) q) /\
  ((forall q, q ∈ l -> is_file (w_fs w) q = false) -> r = Ok tt) /\
  exists t, w_trace w' = w_trace w ++ t /\ Forall (fun a => exists q, a = AMkdir q) t.
Proof.
  revert w. induction l as [|q l IH]; intros w Hrun.
  - simpl in Hrun. injection Hrun as <- <-.
    split_and!; auto. exists []. rewrite app_nil_r. auto.
  - simpl in Hrun. rewrite run_bind in Hrun. unfold mkdir_one at 1 in Hrun.
    destruct (w_fs w !! q) as [[sz|]|] eqn:Hq.
    + injection Hrun as <- <-. split_and!; auto.
      * intros Hnf. exfalso. specialize (Hnf q ltac:(left)).
        unfold is_file in Hnf. by rewrite Hq in Hnf.
      * exists []. rewrite app_nil_r. auto.
    + destruct (IH w Hrun) as (Hdb & Hcl & Hpres & Hout & Hfile & Hok & t & Ht & Hall).
      split_and!; auto.
      * intros q' Hq'. apply Hout. intros Hin. apply Hq'. by right.
      * intros Hnf. apply Hok. intros q' Hq'. apply Hnf. by right.
      * exists t. auto.
    + simpl in Hrun.
      destruct (IH _ Hrun) as (Hdb & Hcl & Hpres & Hout & Hfile & Hok & t & Ht & Hall).
      simpl in *. split_and!; auto.
      * intros q' e He. apply Hpres. simpl.
        rewrite lookup_insert_ne; [exact He|]. intros ->. congruence.
      * intros q' Hq'. rewrite Hout by (intros Hin; apply Hq'; by right). simpl.
        rewrite lookup_insert_ne; [reflexivity|]. intros ->. apply Hq'. by left.
      * intros q'. rewrite Hfile. simpl. unfold is_file.
        destruct (decide (q = q')) as [->|Hne].
        -- by rewrite lookup_insert_eq, Hq.
        -- by rewrite lookup_insert_ne.
      * intros Hnf. apply Hok. intros q' Hq'. simpl. unfold is_file.
        destruct (decide (q = q')) as [->|Hne].
        -- by rewrite lookup_insert_eq.
        -- rewrite lookup_insert_ne by done. apply Hnf. by right.
      * exists (AMkdir q :: t). rewrite Ht. simpl. rewrite <- app_assoc. split; [reflexivity|].
        constructor; [eauto|exact Hall].
Qed.

Lemma ensure_dir_frame (p : path) (w w' : world) (r : result unit) :
  ensure_dir p w = (w', r) ->
  w_db w' = w_db w /\ w_clock w' = w_clock w /\
  (forall q e, w_fs w !! q = Some e -> w_fs w' !! q = Some e) /\
  (forall q, (length p < length q)%nat -> w_fs w' !! q = w_fs w !! q) /\
  (forall q, is_file (w_fs w') q = is_file (w_fs w) q) /\
  (dir_creatable (w_fs w) p = true -> r = Ok tt) /\
  exists t, w_trace w' = w_trace w ++ t /\ Forall (fun a => exists q, a = AMkdir q) t.
Proof.
  intros Hrun. apply forM_mkdir_frame in Hrun as (Hdb & Hcl & Hpres & Hout & Hfile & Hok & Ht).
  split_and!; auto.
  - intros q Hlen. apply Hout. intros Hin. apply prefixes_length in Hin. lia.
  - intros Hc. apply Hok. intros q Hq. unfold dir_creatable in Hc.
    rewrite forallb_forall in Hc. apply list_elem_of_In in Hq.
    specialize (Hc q Hq). by destruct (is_file (w_fs w) q).
Qed.

(** * [move_safe] *)

(** The file-system mutations (as opposed to status writes, transcodes and
    tree copies). *)
Definition fs_action (a : action) : Prop :=
  match a with
  | AMkdir _ | ARename _ _ | ACopy _ _ | AUnlink _ => True
  | _ => False
  end.

Lemma cand_app (dd : path) (n : string) (i : nat) :
  cand (dd ++ [n]) i = dd ++ [stem_of n +:+ "_" +:+ pretty i +:+ suffix_of n].
Proof.
  unfold cand, with_name, parent, stem, suffix, name.
  by rewrite removelast_last, last_last.
Qed.

Lemma exists_not_found (fs : gmap path entry) (p : path) :
  exists_ fs p = false -> fs !! p = None.
Proof.
  unfold exists_. intros H. apply bool_decide_eq_false in H.
  destruct (fs !! p) eqn:E; [|reflexivity]. exfalso. apply H. eauto.
Qed.

Lemma exists_found (fs : gmap path entry) (p : path) (e : entry) :
  fs !! p = Some e -> exists_ fs p = true.
Proof. intros H. unfold exists_. apply bool_decide_eq_true. rewrite H. eauto. Qed.

Lemma exists_same (fs fs' : gmap path entry) (p : path) :
  fs' !! p = fs !! p -> exists_ fs' p = exists_ fs p.
Proof. intros H. unfold exists_. by rewrite H. Qed.

Lemma move_safe_spec (src dd : path) (s : Z) (w : world) :
  w_fs w !! src = Some (File s) ->
  let '(w', r) := move_safe ARGS env src dd w in
  w_db w' = w_db w /\
  (forall q e, q <> src -> w_fs w !! q = Some e -> w_fs w' !! q = Some e) /\
  (exists t, w_trace w' = w_trace w ++ t /\ Forall fs_action t) /\
  (dir_creatable (w_fs w) dd = true -> exists d, r = Ok d) /\
  forall d, r = Ok d ->
    exists_ (w_fs w) d = false /\
    ((d = dd ++ [name src]) \/
     (exists_ (w_fs w) (dd ++ [name src]) = true /\
      exists i, (1 <= i)%nat /\ d = cand (dd ++ [name src]) i /\
        forall j, (1 <= j < i)%nat -> exists_ (w_fs w) (cand (dd ++ [name src]) j) = true)) /\
    (forall q, q <> src -> q <> d -> (length dd < length q)%nat ->
               w_fs w' !! q = w_fs w !! q) /\
    (dry_run ARGS = false ->
       w_fs w' !! d = Some (File s) /\
       (w_fs w' !! src = None \/
        (o_rename_fails env src d = true /\ o_unlink_fails env src = true /\
         w_fs w' !! src = Some (File s)))).
Proof.
  intros Hsrc. unfold move_safe. rewrite run_bind.
  destruct (ensure_dir dd w) as [w1 r1] eqn:He.
  pose proof (ensure_dir_frame dd w w1 r1 He) as (Hdb1 & _ & Hpres1 & Hout1 & _ & Hok1 & t1 & Ht1 & Hf1).
  assert (Hsrc1 : w_fs w1 !! src = Some (File s)) by auto.
  destruct r1 as [[]|e].
  2:{ split_and!; auto.
      - exists t1. split; [exact Ht1|]. eapply Forall_impl; [exact Hf1|].
        intros a [q ->]. exact I.
      - intros Hc. specialize (Hok1 Hc). discriminate.
      - intros d [=]. }
  rewrite run_bind. unfold gets. cbv beta iota.
  remember (unique_dest (w_fs w1) (dd ++ [name src])) as d eqn:Hdef.
  assert (Hfresh1 : exists_ (w_fs w1) d = false) by (rewrite Hdef; apply unique_dest_fresh).
  assert (Hd1 : w_fs w1 !! d = None) by (by apply exists_not_found).
  assert (Hlen_d : (length dd < length d)%nat).
  { rewrite Hdef. destruct (unique_dest_shape (w_fs w1) (dd ++ [name src]))
      as [[_ ->]|[_ (i & _ & -> & _)]]; [|rewrite cand_app];
      rewrite length_app; simpl; lia. }
  assert (Hfresh : exists_ (w_fs w) d = false).
  { rewrite <- Hfresh1. symmetry. apply exists_same. auto. }
  assert (Hneq : src <> d).
  { intros ->. rewrite Hsrc1 in Hd1. discriminate. }
  assert (Hshape :
    (d = dd ++ [name src]) \/
    (exists_ (w_fs w) (dd ++ [name src]) = true /\
     exists i, (1 <= i)%nat /\ d = cand (dd ++ [name src]) i /\
       forall j, (1 <= j < i)%nat -> exists_ (w_fs w) (cand (dd ++ [name src]) j) = true)).
  { rewrite Hdef. destruct (unique_dest_shape (w_fs w1) (dd ++ [name src]))
      as [[_ ->]|[Hex (i & Hi & -> & Hall)]]; [by left|right].
    split.
    - rewrite <- Hex. symmetry. apply exists_same. apply Hout1.
      rewrite length_app. simpl. lia.
    - exists i. split_and!; [exact Hi|reflexivity|]. intros j Hj.
      rewrite <- (Hall j Hj). symmetry. apply exists_same. apply Hout1.
      rewrite cand_app, length_app. simpl. lia. }
  assert (Htr1 : Forall fs_action t1).
  { eapply Forall_impl; [exact Hf1|]. intros a [q ->]. exact I. }
  destruct (dry_run ARGS) eqn:Hdry.
  - (* dry run: nothing is moved *)
    rewrite run_ret. split_and!.
    + exact Hdb1.
    + intros q e _ He'. auto.
    + exists t1. auto.
    + intros _. eauto.
    + intros d' [= <-]. split_and!.
      * exact Hfresh.
      * exact Hshape.
      * intros q _ _ Hq. apply Hout1. exact Hq.
      * intros [=].
  - rewrite run_bind. unfold try_except, os_rename at 1.
    destruct (o_rename_fails env src d) eqn:Hrf.
    + (* the rename is refused: copy, then try to delete the original *)
      assert (Hnd : is_dir (w_fs w1) d = false) by (unfold is_dir; by rewrite Hd1).
      rewrite run_bind. unfold copy2 at 1. rewrite Hnd, Hsrc1. cbv beta iota.
      unfold try_pass, try_except, os_unlink at 1. simpl.
      destruct (o_unlink_fails env src) eqn:Huf; simpl.
      * split_and!.
        -- exact Hdb1.
        -- intros q e Hq He'. destruct (decide (q = d)) as [->|Hqd].
           ++ exfalso. apply Hpres1 in He'. congruence.
           ++ rewrite lookup_insert_ne by congruence. auto.
        -- exists (t1 ++ [ACopy src d]). rewrite Ht1, <- app_assoc. split; [reflexivity|].
           apply Forall_app. split; [exact Htr1|]. repeat constructor.
        -- intros _. eauto.
        -- intros d' [= <-]. split_and!.
           ++ exact Hfresh.
           ++ exact Hshape.
           ++ intros q Hq1 Hq2 Hq3. rewrite lookup_insert_ne by congruence. auto.
           ++ intros _. rewrite lookup_insert_eq. split; [reflexivity|].
              right. rewrite lookup_insert_ne by congruence. auto.
      * rewrite lookup_insert_ne by congruence. rewrite Hsrc1. simpl.
        split_and!.
        -- exact Hdb1.
        -- intros q e Hq He'. rewrite lookup_delete_ne by congruence.
           destruct (decide (q = d)) as [->|Hqd].
           ++ exfalso. apply Hpres1 in He'. congruence.
           ++ rewrite lookup_insert_ne by congruence. auto.
        -- exists (t1 ++ [ACopy src d; AUnlink src]). rewrite Ht1, <- !app_assoc.
           split; [reflexivity|].
           apply Forall_app. split; [exact Htr1|]. repeat constructor.
        -- intros _. eauto.
        -- intros d' [= <-]. split_and!.
           ++ exact Hfresh.
           ++ exact Hshape.
           ++ intros q Hq1 Hq2 Hq3. rewrite lookup_delete_ne by congruence.
              rewrite lookup_insert_ne by congruence. auto.
           ++ intros _. rewrite lookup_delete_ne by congruence.
              rewrite lookup_insert_eq. split; [reflexivity|].
              left. apply lookup_delete_eq.
    + rewrite Hsrc1, Hd1. simpl. split_and!.
      * exact Hdb1.
      * intros q e Hq He'. destruct (decide (q = d)) as [->|Hqd].
        -- exfalso. apply Hpres1 in He'. congruence.
        -- rewrite lookup_insert_ne by congruence. rewrite lookup_delete_ne by congruence. auto.
      * exists (t1 ++ [ARename src d]). rewrite Ht1, <- app_assoc. split; [reflexivity|].
        apply Forall_app. split; [exact Htr1|]. repeat constructor.
      * intros _. eauto.
      * intros d' [= <-]. split_and!.
        -- exact Hfresh.
        -- exact Hshape.
        -- intros q Hq1 Hq2 Hq3. rewrite lookup_insert_ne by congruence.
           rewrite lookup_delete_ne by congruence. auto.
        -- intros _. rewrite lookup_insert_eq. split; [reflexivity|].
           left. rewrite lookup_insert_ne by congruence. apply lookup_delete_eq.
Qed.

Lemma cand_movie_1 (dd : path) :
  cand (dd ++ ["movie.mp4"]) 1 = dd ++ ["movie_1.mp4"].
Proof. rewrite cand_app. f_equal; vm_compute; reflexivity. Qed.

(** C5: [move_safe] never overwrites: the path it returns did not exist
    before the call and is the wanted name or, when that is taken, the
    first free [<stem>_<i><suffix>] for [i = 1, 2, ...]; every other
    existing entry survives and, outside dry-run, the file ends up there.
    In particular a [movie.mp4] moved into a directory that already has
    [movie.mp4] (and no [movie_1.mp4]) lands at [movie_1.mp4]. *)
Theorem move_safe_never_overwrites (src dd : path) (s : Z) (w : world) :
  w_fs w !! src = Some (File s) ->
  let '(w', r) := move_safe ARGS env src dd w in
  (forall d, r = Ok d ->
     exists_ (w_fs w) d = false /\
     ((exists_ (w_fs w) (dd ++ [name src]) = false /\ d = dd ++ [name src]) \/
      (exists_ (w_fs w) (dd ++ [name src]) = true /\
       exists i, (1 <= i)%nat /\ d = cand (dd ++ [name src]) i /\
         forall j, (1 <= j < i)%nat -> exists_ (w_fs w) (cand (dd ++ [name src]) j) = true)) /\
     (forall q e, q <> src -> w_fs w !! q = Some e -> w_fs w' !! q = Some e) /\
     (dry_run ARGS = false -> w_fs w' !! d = Some (File s))) /\
  (name src = "movie.mp4" ->
   dir_creatable (w_fs w) dd = true ->
   exists_ (w_fs w) (dd ++ ["movie.mp4"]) = true ->
   exists_ (w_fs w) (dd ++ ["movie_1.mp4"]) = false ->
   r = Ok (dd ++ ["movie_1.mp4"])).
Proof.
  intros Hsrc. pose proof (move_safe_spec src dd s w Hsrc) as Hms.
  destruct (move_safe ARGS env src dd w) as [w' r].
  destruct Hms as (_ & Hpres & _ & Hok & Hd). split.
  - intros d Hr. destruct (Hd d Hr) as (Hfr & Hsh & _ & Hnd). split_and!.
    + exact Hfr.
    + destruct Hsh as [->|Hsh]; [left; auto|right; exact Hsh].
    + exact Hpres.
    + intros Hdry. apply Hnd; auto.
  - intros Hn Hc Hex Hex1. destruct (Hok Hc) as [d Hr]. rewrite Hr.
    destruct (Hd d Hr) as (Hfr & Hsh & _). rewrite Hn in Hsh.
    destruct Hsh as [->|(_ & i & Hi & -> & Hall)].
    + congruence.
    + destruct (decide (i = 1%nat)) as [->|Hi1].
      * by rewrite cand_movie_1.
      * specialize (Hall 1%nat ltac:(lia)). rewrite cand_movie_1 in Hall. congruence.
Qed.

Lemma mark_run (p : path) (st : string) (note : option string) (w : world) :
  let '(w', r) := mark p st note w in
  r = Ok tt /\ w_fs w' = w_fs w /\ w_clock w' = w_clock w /\
  w_trace w' = w_trace w ++ [AMark p st] /\
  fr_status <$> w_db w' !! p = Some st /\
  fr_note <$> w_db w' !! p = Some note /\
  (forall q, q <> p -> w_db w' !! q = w_db w !! q).
Proof.
  unfold mark. simpl. split_and!; try reflexivity.
  - rewrite lookup_insert_eq. by destruct (w_db w !! p).
  - rewrite lookup_insert_eq. by destruct (w_db w !! p).
  - intros q Hq. by rewrite lookup_insert_ne by congruence.
Qed.

Lemma should_skip_mp4_h264_720 (i : probe_info) :
  format_name i = Some "mp4" -> vcodec i = Some "h264" -> width i = 720%Z ->
  should_skip_by_probe (Some i) = true.
Proof. intros Hf Hv Hw. unfold should_skip_by_probe. rewrite Hf, Hv, Hw. reflexivity. Qed.

(** C3: the skip predicate is exactly "the lower-cased container name
    contains [mp4], the lower-cased codec is [h264] or [avc1], and the
    width is at most 854"; an unknown probe result ([None]) never skips.
    A probe result [mp4]/[h264]/720 makes the engine mark [skipped_moved]
    and move the original, unmodified (same size), to a fresh mirrored
    path, with no transcoder run; a width of 1920 sends the file to the
    transcode branch whatever the codec and container. *)
Theorem skip_by_probe_policy :
  (forall i, should_skip_by_probe (Some i) = true <->
     Py.contains "mp4" (Py.lower (default "" (format_name i))) = true /\
     (Py.lower (default "" (vcodec i)) = "h264" \/ Py.lower (default "" (vcodec i)) = "avc1") /\
     (width i <= 854)%Z) /\
  should_skip_by_probe None = false /\
  (forall (src dl out rel : path) (s : Z) (i : probe_info) (w : world),
     w_fs w !! src = Some (File s) ->
     o_probe env (w_fs w) src = Some i ->
     format_name i = Some "mp4" -> vcodec i = Some "h264" -> width i = 720%Z ->
     relative_to src dl = Some rel ->
     dir_creatable (w_fs w) (parent (out ++ rel)) = true ->
     let '(w', r) := probe_step ARGS env src dl out w in
     r = Ok tt /\
     fr_status <$> w_db w' !! src = Some "skipped_moved" /\
     (exists t, w_trace w' = w_trace w ++ t ++ [AMark src "skipped_moved"] /\
                Forall fs_action t) /\
     (dry_run ARGS = false ->
        exists d, exists_ (w_fs w) d = false /\ w_fs w' !! d = Some (File s))) /\
  (forall i, width i = 1920%Z -> should_skip_by_probe (Some i) = false) /\
  (forall (src dl out : path) (i : probe_info) (w : world),
     o_probe env (w_fs w) src = Some i -> width i = 1920%Z ->
     probe_step ARGS env src dl out w = transcode_step ARGS env src dl out w).
Proof.
  split_and!.
  - intros i. unfold should_skip_by_probe.
    rewrite !andb_true_iff, orb_true_iff, !String.eqb_eq, Z.leb_le. tauto.
  - reflexivity.
  - intros src dl out rel s i w Hsrc Hp Hf Hv Hw Hrel Hc.
    unfold probe_step. rewrite run_bind. unfold probe_video, gets. cbv beta iota.
    rewrite Hp, (should_skip_mp4_h264_720 i Hf Hv Hw), run_bind, Hrel.
    unfold lift_rel. rewrite run_ret, run_bind.
    pose proof (move_safe_spec src (parent (out ++ rel)) s w Hsrc) as Hms.
    destruct (move_safe ARGS env src (parent (out ++ rel)) w) as [w1 r1].
    destruct Hms as (Hdb1 & _ & (t & Ht & Hft) & Hok & Hd).
    destruct (Hok Hc) as [d ->]. destruct (Hd d eq_refl) as (Hfr & _ & _ & Hnd).
    pose proof (mark_run src "skipped_moved" (Some ("moved to " +:+ path_str d)) w1) as Hm.
    destruct (mark src "skipped_moved" _ w1) as [w2 r2].
    destruct Hm as (-> & Hfs2 & _ & Htr2 & Hst2 & _). split_and!.
    + reflexivity.
    + exact Hst2.
    + exists t. rewrite Htr2, Ht, app_assoc. auto.
    + intros Hdry. exists d. rewrite Hfs2. split; [exact Hfr|]. apply Hnd; auto.
  - intros i Hw. unfold should_skip_by_probe. rewrite Hw.
    rewrite (andb_comm _ (1920 <=? 854)%Z). reflexivity.
  - intros src dl out i w Hp Hw. unfold probe_step. rewrite run_bind.
    unfold probe_video, gets. cbv beta iota. rewrite Hp.
    unfold should_skip_by_probe at 1. rewrite Hw.
    rewrite (andb_comm _ (1920 <=? 854)%Z). reflexivity.
Qed.

(** C7 (as amended): when the transcoder fails, with a nonzero exit code
    or with exit code 0 and no artifact at the temporary path, the engine
    records [error] with the note [handbrake_exit_<rc>] or [no_output],
    stops, and leaves the original as it was; on a nonzero exit it tries
    to delete an existing artifact, and that deletion succeeds unless the
    OS refuses it, a refusal being ignored. *)
Theorem transcode_failure_marks_error (src dl out rel : path) (s : Z) (w : world) :
  w_fs w !! src = Some (File s) ->
  relative_to src dl = Some rel ->
  src <> with_suffix (out ++ rel) (".mp4" +:+ TEMP_SUFFIX) ->
  dir_creatable (w_fs w) (parent (with_suffix (out ++ rel) (".mp4" +:+ TEMP_SUFFIX))) = true ->
  let dest_tmp := with_suffix (out ++ rel) (".mp4" +:+ TEMP_SUFFIX) in
  let rc := if dry_run ARGS then 0%Z else fst (o_handbrake env src dest_tmp) in
  let '(w', r) := transcode_step ARGS env src dl out w in
  (rc <> 0%Z ->
     r = Ok tt /\ w_fs w' !! src = Some (File s) /\
     fr_status <$> w_db w' !! src = Some "error" /\
     fr_note <$> w_db w' !! src = Some (Some ("handbrake_exit_" +:+ pretty rc)) /\
     (o_unlink_fails env dest_tmp = false -> is_file (w_fs w') dest_tmp = false)) /\
  (rc = 0%Z -> exists_ (w_fs w) dest_tmp = false ->
   (dry_run ARGS = true \/ snd (o_handbrake env src dest_tmp) = None) ->
     r = Ok tt /\ w_fs w' !! src = Some (File s) /\
     fr_status <$> w_db w' !! src = Some "error" /\
     fr_note <$> w_db w' !! src = Some (Some "no_output")).
Proof.
  intros Hsrc Hrel Hne Hc dest_tmp rc.
  assert (Hne' : dest_tmp <> src) by (intros E; apply Hne; rewrite <- E; reflexivity).
  unfold transcode_step. rewrite run_bind.
  pose proof (mark_run src "queued" (Some "ready") w) as Hm.
  destruct (mark src "queued" _ w) as [w1 r1].
  destruct Hm as (-> & Hfs1 & _ & _ & _ & _ & _).
  rewrite run_bind, Hrel. unfold lift_rel. rewrite run_ret, run_bind.
  fold dest_tmp.
  destruct (ensure_dir (parent dest_tmp) w1) as [w2 r2] eqn:He.
  pose proof (ensure_dir_frame _ _ _ _ He) as (_ & _ & Hpres2 & Hout2 & _ & Hok2 & _).
  rewrite Hfs1 in Hok2. specialize (Hok2 Hc). subst r2.
  assert (Hsrc2 : w_fs w2 !! src = Some (File s)) by (apply Hpres2; congruence).
  assert (Htmp2 : w_fs w2 !! dest_tmp = w_fs w !! dest_tmp).
  { rewrite Hout2, Hfs1; [reflexivity|]. unfold dest_tmp, with_suffix, parent.
    rewrite removelast_last, length_app. simpl. lia. }
  rewrite run_bind. unfold transcode_with_handbrake. subst rc.
  destruct (dry_run ARGS) eqn:Hdry.
  - rewrite run_ret. cbv beta iota. cbn [negb Z.eqb].
    rewrite run_bind. unfold path_exists, gets. cbv beta iota.
    rewrite (exists_same _ _ _ Htmp2).
    destruct (exists_ (w_fs w) dest_tmp) eqn:Hex.
    { gen_run. split; intros; simpl in *; intuition congruence. }
    cbn [negb].
    pose proof (mark_run src "error" (Some "no_output") w2) as Hm.
    destruct (mark src "error" _ w2) as [w3 r3].
    destruct Hm as (-> & -> & _ & _ & Hst & Hnote & _). split; [congruence|]. auto.
  - destruct (o_handbrake env src dest_tmp) as [rc0 oo] eqn:Hhb. cbv beta iota.
    cbn [fst]. destruct (rc0 =? 0)%Z eqn:Hz; cbn [negb].
    + apply Z.eqb_eq in Hz. subst rc0.
      rewrite run_bind. unfold path_exists, gets. cbv beta iota. cbn [w_fs set_fs].
      destruct oo as [sz|].
      { gen_run. split; intros; simpl in *; intuition congruence. }
      rewrite (exists_same _ _ _ Htmp2).
      destruct (exists_ (w_fs w) dest_tmp) eqn:Hex.
      { gen_run. split; intros; simpl in *; intuition congruence. }
      cbn [negb].
      match goal with |- context [mark src "error" ?n ?w0] =>
        pose proof (mark_run src "error" n w0) as Hm;
        destruct (mark src "error" n w0) as [w3 r3] end.
      destruct Hm as (-> & -> & _ & _ & Hst & Hnote & _). simpl.
      split; [congruence|]. auto.
    + apply Z.eqb_neq in Hz. rewrite run_bind.
      match goal with |- context [mark src "error" ?n ?w0] =>
        pose proof (mark_run src "error" n w0) as Hm;
        destruct (mark src "error" n w0) as [w3 r3] end.
      destruct Hm as (-> & Hfs3 & _ & _ & Hst & Hnote & Hoth). simpl in Hfs3.
      assert (Hsrc3 : w_fs w3 !! src = Some (File s)).
      { rewrite Hfs3. destruct oo; [rewrite lookup_insert_ne by congruence|]; exact Hsrc2. }
      rewrite run_bind. unfold path_exists, gets. cbv beta iota.
      destruct (exists_ (w_fs w3) dest_tmp) eqn:Hex3.
      * unfold try_pass, try_except, os_unlink.
        destruct (o_unlink_fails env dest_tmp) eqn:Huf.
        -- simpl. split; [|congruence]. intros _. split_and!; auto. discriminate.
        -- destruct (w_fs w3 !! dest_tmp) as [[]|] eqn:Et; simpl;
             (split; [|congruence]); intros _.
           ++ rewrite lookup_delete_ne by congruence. split_and!; auto.
              intros _. unfold is_file. by rewrite lookup_delete_eq.
           ++ split_and!; auto. intros _. unfold is_file. by rewrite Et.
           ++ split_and!; auto. intros _. unfold is_file. by rewrite Et.
      * rewrite run_ret. split; [|congruence]. intros _. split_and!; auto.
        intros _. unfold is_file. by rewrite (exists_not_found _ _ Hex3).
Qed.


Lemma try_unlink_run (p : path) (w : world) :
  let '(w', r) := try_pass (os_unlink env p) w in
  r = Ok tt /\ w_db w' = w_db w /\
  (w_fs w' = w_fs w \/ w_fs w' = delete p (w_fs w)) /\
  (o_unlink_fails env p = false -> is_file (w_fs w) p = true ->
   w_fs w' = delete p (w_fs w)).
Proof.
  unfold try_pass, try_except, os_unlink.
  destruct (o_unlink_fails env p); simpl.
  - split_and!; auto. discriminate.
  - unfold is_file. destruct (w_fs w !! p) as [[]|]; simpl; split_and!; auto; discriminate.
Qed.

Lemma dir_creatable_delete (fs : gmap path entry) (p q : path) :
  dir_creatable fs p = true -> dir_creatable (delete q fs) p = true.
Proof.
  unfold dir_creatable. rewrite !forallb_forall. intros H x Hx.
  specialize (H x Hx). unfold is_file in *.
  destruct (decide (x = q)) as [->|Hxq].
  - by rewrite lookup_delete_eq.
  - by rewrite lookup_delete_ne by congruence.
Qed.

Lemma move_safe_parent (dd src d : path) (fs : gmap path entry) :
  (d = dd ++ [name src] \/
   (exists_ fs (dd ++ [name src]) = true /\
    exists i, (1 <= i)%nat /\ d = cand (dd ++ [name src]) i /\
      forall j, (1 <= j < i)%nat -> exists_ fs (cand (dd ++ [name src]) j) = true)) ->
  parent d = dd.
Proof.
  intros [->|(_ & i & _ & -> & _)]; unfold parent;
    [|rewrite cand_app]; apply removelast_last.
Qed.

Lemma size_comparison_kept (src dl out rel tmp : path) (o n : Z) (w : world) :
  dry_run ARGS = false ->
  w_fs w !! src = Some (File o) -> w_fs w !! tmp = Some (File n) -> src <> tmp ->
  relative_to src dl = Some rel ->
  tmp = with_suffix (out ++ rel) (".mp4" +:+ TEMP_SUFFIX) ->
  dir_creatable (w_fs w) (parent (out ++ rel)) = true ->
  (o <= n)%Z ->
  let '(w', r) := size_comparison_step ARGS env src dl out tmp o n w in
  r = Ok tt /\
  fr_status <$> w_db w' !! src = Some "kept_original_moved" /\
  exists d, parent d = parent (out ++ rel) /\ w_fs w' !! d = Some (File o) /\
    (d = tmp \/ exists_ (w_fs w) d = false) /\
    (w_fs w' !! src = None \/
     (o_rename_fails env src d = true /\ o_unlink_fails env src = true)) /\
    (o_unlink_fails env tmp = false -> d = tmp \/ w_fs w' !! tmp = None).
Proof.
  intros Hdry Hsrc Htmp Hne Hrel Htmpd Hc Hle.
  unfold size_comparison_step. rewrite (proj2 (Z.leb_le _ _) Hle), Hdry.
  rewrite run_bind.
  pose proof (try_unlink_run tmp w) as Hu.
  destruct (try_pass (os_unlink env tmp) w) as [w1 r1].
  destruct Hu as (-> & Hdb1 & Hfs1 & Hdel1).
  rewrite run_bind, Hrel. unfold lift_rel. rewrite run_ret, run_bind.
  set (dd := parent (out ++ rel)).
  assert (Hsrc1 : w_fs w1 !! src = Some (File o)).
  { destruct Hfs1 as [->| ->]; [exact Hsrc|]. by rewrite lookup_delete_ne by congruence. }
  assert (Hc1 : dir_creatable (w_fs w1) dd = true).
  { destruct Hfs1 as [->| ->]; [exact Hc|]. by apply dir_creatable_delete. }
  pose proof (move_safe_spec src dd o w1 Hsrc1) as Hms.
  destruct (move_safe ARGS env src dd w1) as [w2 r2].
  destruct Hms as (_ & _ & _ & Hok & Hd).
  destruct (Hok Hc1) as [d ->]. destruct (Hd d eq_refl) as (Hfr & Hsh & Hout & Hnd).
  specialize (Hnd Hdry) as [Hd2 Hsrc2].
  pose proof (mark_run src "kept_original_moved"
                (Some ("moved original to " +:+ path_str d)) w2) as Hm.
  destruct (mark src "kept_original_moved" _ w2) as [w3 r3].
  destruct Hm as (-> & Hfs3 & _ & _ & Hst & _). rewrite Hfs3.
  split_and!; [reflexivity|exact Hst|]. exists d. split_and!.
  - exact (move_safe_parent dd src d _ Hsh).
  - exact Hd2.
  - destruct (decide (d = tmp)) as [->|Hdt]; [by left|right].
    destruct Hfs1 as [Hf| Hf]; rewrite Hf in Hfr; [exact Hfr|].
    unfold exists_ in *. by rewrite lookup_delete_ne in Hfr by congruence.
  - destruct Hsrc2 as [?|(? & ? & _)]; [by left|by right].
  - intros Huf. destruct (decide (d = tmp)) as [->|Hdt]; [by left|right].
    rewrite Hout; [| congruence | congruence |].
    + rewrite (Hdel1 Huf); [apply lookup_delete_eq|]. unfold is_file. by rewrite Htmp.
    + rewrite Htmpd. unfold with_suffix. fold dd. rewrite length_app. simpl. lia.
Qed.

Lemma choose_dest_final_run (p : path) (w : world) :
  choose_dest_final p w =
  (w, Ok (if exists_ (w_fs w) p then unique_dest (w_fs w) p else p)).
Proof.
  unfold choose_dest_final, path_exists, gets. rewrite run_bind.
  by destruct (exists_ (w_fs w) p).
Qed.

Lemma size_comparison_replace (src dl out rel tmp : path) (o n : Z) (w : world) :
  dry_run ARGS = false ->
  w_fs w !! src = Some (File o) -> w_fs w !! tmp = Some (File n) -> src <> tmp ->
  relative_to src dl = Some rel ->
  (n < o)%Z ->
  let d0 := with_suffix (out ++ rel) ".mp4" in
  let d := if exists_ (w_fs w) d0 then unique_dest (w_fs w) d0 else d0 in
  let '(w', r) := size_comparison_step ARGS env src dl out tmp o n w in
  r = Ok tt /\ exists_ (w_fs w) d = false /\
  (o_rename_fails env tmp d = false ->
     fr_status <$> w_db w' !! src = Some "done_moved" /\
     w_fs w' !! d = Some (File n) /\ w_fs w' !! tmp = None /\
     (o_unlink_fails env src = false -> w_fs w' !! src = None)) /\
  (o_rename_fails env tmp d = true ->
     fr_status <$> w_db w' !! src = Some "error" /\
     fr_note <$> w_db w' !! src = Some (Some "move_failed:OSError") /\
     w_fs w' = w_fs w).
Proof.
  intros Hdry Hsrc Htmp Hne Hrel Hlt d0 d.
  assert (Hfresh : exists_ (w_fs w) d = false).
  { unfold d. destruct (exists_ (w_fs w) d0) eqn:Hx; [apply unique_dest_fresh|exact Hx]. }
  assert (Hd : w_fs w !! d = None) by (by apply exists_not_found).
  assert (Htd : tmp <> d) by (intros ->; congruence).
  assert (Hsd : src <> d) by (intros ->; congruence).
  unfold size_comparison_step. rewrite (proj2 (Z.leb_gt _ _) Hlt).
  rewrite run_bind, Hrel. unfold lift_rel. rewrite run_ret, run_bind.
  rewrite choose_dest_final_run. fold d0. fold d.
  unfold try_except. rewrite Hdry, !run_bind.
  unfold os_rename at 1. destruct (o_rename_fails env tmp d) eqn:Hrf.
  - pose proof (mark_run src "error" (Some ("move_failed:" +:+ exn_str OSError)) w) as Hm.
    destruct (mark src "error" _ w) as [w1 r1].
    destruct Hm as (-> & Hfs1 & _ & _ & Hst & Hnote & _).
    split_and!; auto; discriminate.
  - rewrite Htmp, Hd. simpl.
    match goal with |- context [try_pass (os_unlink env src) ?w0] =>
      pose proof (try_unlink_run src w0) as Hu;
      destruct (try_pass (os_unlink env src) w0) as [w1 r1] end.
    destruct Hu as (-> & Hdb1 & Hfs1 & Hdel1). simpl in Hfs1, Hdel1.
    pose proof (mark_run src "done_moved" (Some ("moved transcode to " +:+ path_str d)) w1) as Hm.
    destruct (mark src "done_moved" _ w1) as [w2 r2].
    destruct Hm as (-> & Hfs2 & _ & _ & Hst & _). rewrite Hfs2.
    split_and!; [reflexivity|exact Hfresh| |discriminate]. intros _. split_and!.
    + exact Hst.
    + destruct Hfs1 as [-> | ->]; [|rewrite lookup_delete_ne by congruence];
        apply lookup_insert_eq.
    + destruct Hfs1 as [-> | ->]; [|rewrite lookup_delete_ne by congruence];
        rewrite lookup_insert_ne by congruence; apply lookup_delete_eq.
    + intros Huf. rewrite Hdel1; [apply lookup_delete_eq|exact Huf|].
      unfold is_file. rewrite lookup_insert_ne by congruence.
      rewrite lookup_delete_ne by congruence. by rewrite Hsrc.
Qed.

(** C2 (as amended): outside dry-run, for a file reaching the size
    comparison with its original at [src] and the transcode at the
    temporary path: if the original is no larger, deleting the artifact is
    attempted (a refusal is ignored), the original is moved by [move_safe]
    into the mirrored directory and the status becomes
    [kept_original_moved]; otherwise the artifact is renamed to the
    mirrored [.mp4] path (made unique when taken), deleting the original is
    attempted (a refusal is ignored) and the status becomes [done_moved];
    but when the OS refuses that rename, the status becomes [error] with
    note [move_failed:OSError] and no file is touched. *)
Theorem size_comparison_outcomes (src dl out rel tmp : path) (o n : Z) (w : world) :
  dry_run ARGS = false ->
  w_fs w !! src = Some (File o) -> w_fs w !! tmp = Some (File n) -> src <> tmp ->
  relative_to src dl = Some rel ->
  tmp = with_suffix (out ++ rel) (".mp4" +:+ TEMP_SUFFIX) ->
  dir_creatable (w_fs w) (parent (out ++ rel)) = true ->
  let d0 := with_suffix (out ++ rel) ".mp4" in
  let df := if exists_ (w_fs w) d0 then unique_dest (w_fs w) d0 else d0 in
  let '(w', r) := size_comparison_step ARGS env src dl out tmp o n w in
  r = Ok tt /\
  ((o <= n)%Z ->
     fr_status <$> w_db w' !! src = Some "kept_original_moved" /\
     exists d, parent d = parent (out ++ rel) /\ w_fs w' !! d = Some (File o) /\
       (d = tmp \/ exists_ (w_fs w) d = false) /\
       (w_fs w' !! src = None \/
        (o_rename_fails env src d = true /\ o_unlink_fails env src = true)) /\
       (o_unlink_fails env tmp = false -> d = tmp \/ w_fs w' !! tmp = None)) /\
  ((n < o)%Z ->
     exists_ (w_fs w) df = false /\
     (o_rename_fails env tmp df = false ->
        fr_status <$> w_db w' !! src = Some "done_moved" /\
        w_fs w' !! df = Some (File n) /\ w_fs w' !! tmp = None /\
        (o_unlink_fails env src = false -> w_fs w' !! src = None)) /\
     (o_rename_fails env tmp df = true ->
        fr_status <$> w_db w' !! src = Some "error" /\
        fr_note <$> w_db w' !! src = Some (Some "move_failed:OSError") /\
        w_fs w' = w_fs w)).
Proof.
  intros Hdry Hsrc Htmp Hne Hrel Htmpd Hc d0 df.
  destruct (Z.le_gt_cases o n) as [Hle|Hlt].
  - pose proof (size_comparison_kept src dl out rel tmp o n w
                  Hdry Hsrc Htmp Hne Hrel Htmpd Hc Hle) as H.
    destruct (size_comparison_step ARGS env src dl out tmp o n w) as [w' r].
    destruct H as (Hr & Hk). split_and!; [exact Hr|intros _; exact Hk|lia].
  - pose proof (size_comparison_replace src dl out rel tmp o n w
                  Hdry Hsrc Htmp Hne Hrel Hlt) as H.
    destruct (size_comparison_step ARGS env src dl out tmp o n w) as [w' r].
    destruct H as (Hr & Hk). split_and!; [exact Hr|lia|intros _; exact Hk].
Qed.

(** C1 (code bug): the gate of [process_movie_file] makes it a no-op for
    [done_moved], [skipped_moved], [kept_original_moved] and
    [copied_season], and [error] is not gated; but [skipped_by_user] is
    not gated either: a movie recorded [skipped_by_user] by an earlier run
    is moved and re-recorded [skipped_moved] by a run without [--confirm]. *)
Theorem gate_omits_skipped_by_user :
  (forall st src dl out w,
     In st ["done_moved"; "skipped_moved"; "kept_original_moved"; "copied_season"] ->
     fr_status <$> w_db w !! src = Some st ->
     process_movie_file ARGS env src dl out w = (w, Ok tt)) /\
  gated (Some "error") = false /\
  gated (Some "skipped_by_user") = false /\
  (let w0 := Fixtures.w_movie [(Fixtures.movie, Fixtures.rec_of "skipped_by_user")] in
   let '(w', r) :=
     process_movie_file Fixtures.args_run
       (Fixtures.env_probe (Some Fixtures.probe_small) (0%Z, None) false false)
       Fixtures.movie Fixtures.dl Fixtures.out w0 in
   r = Ok tt /\
   fr_status <$> w_db w0 !! Fixtures.movie = Some "skipped_by_user" /\
   fr_status <$> w_db w' !! Fixtures.movie = Some "skipped_moved" /\
   w_fs w0 !! Fixtures.movie = Some (File 100) /\ w_fs w' !! Fixtures.movie = None).
Proof.
  split_and!.
  - intros st src dl out w Hin Hst. unfold process_movie_file. rewrite run_bind.
    unfold status_of, gets. cbv beta iota. rewrite Hst.
    assert (Hg : gated (Some st) = true).
    { destruct Hin as [<-|[<-|[<-|[<-|[]]]]]; reflexivity. }
    rewrite Hg. apply run_ret.
  - reflexivity.
  - reflexivity.
  - vm_compute. split_and!; reflexivity.
Qed.

(** C9 (code bug): under [--dry-run] confirmations answer yes and the
    transcoder is not run, each without any effect; but the run is not
    free of effects: a film that the probe lets through is recorded
    [skipped_moved] in the status table (so later real runs never process
    it) and its destination folder is created, although the film itself
    stays where it is. *)
Theorem dry_run_still_mutates :
  (dry_run ARGS = true -> forall prompt w, ask_confirm ARGS env prompt w = (w, Ok true)) /\
  (dry_run ARGS = true -> forall src tmp w,
     transcode_with_handbrake ARGS env src tmp w = (w, Ok 0%Z)) /\
  (let w0 := Fixtures.w_film in
   let '(w', r) :=
     process_movie_file Fixtures.args_dry
       (Fixtures.env_probe (Some Fixtures.probe_small) (0%Z, None) false false)
       Fixtures.film Fixtures.dl Fixtures.out w0 in
   r = Ok tt /\
   w_fs w' !! Fixtures.film = w_fs w0 !! Fixtures.film /\
   w_db w0 !! Fixtures.film = None /\
   fr_status <$> w_db w' !! Fixtures.film = Some "skipped_moved" /\
   w_fs w0 !! ["out"; "Film"] = None /\ w_fs w' !! ["out"; "Film"] = Some Dir).
Proof.
  split_and!.
  - intros Hd prompt w. unfold ask_confirm. rewrite Hd. apply run_ret.
  - intros Hd src tmp w. unfold transcode_with_handbrake. rewrite Hd. apply run_ret.
  - vm_compute. split_and!; reflexivity.
Qed.

(** ** Which status rows a computation writes *)

(** [m] writes no status row but [p]'s. *)
Definition db_local {A} (p : path) (m : M A) : Prop :=
  forall w q, q <> p -> w_db (fst (m w)) !! q = w_db w !! q.

(** [m] writes no status row at all. *)
Definition db_const {A} (m : M A) : Prop := forall w, w_db (fst (m w)) = w_db w.

Lemma db_const_local {A} (p : path) (m : M A) : db_const m -> db_local p m.
Proof. intros H w q _. by rewrite H. Qed.

Lemma db_local_ret {A} (p : path) (a : A) : db_local p (mret a : M A).
Proof. intros w q _. reflexivity. Qed.

Lemma db_local_bind {A B} (p : path) (m : M A) (f : A -> M B) :
  db_local p m -> (forall a, db_local p (f a)) -> db_local p (m ≫= f).
Proof.
  intros Hm Hf w q Hq. rewrite run_bind.
  specialize (Hm w q Hq). destruct (m w) as [w1 [a|e]]; simpl in *.
  - rewrite Hf by exact Hq. exact Hm.
  - exact Hm.
Qed.

Lemma db_local_try {A} (p : path) (m : M A) (h : exn -> M A) :
  db_local p m -> (forall e, db_local p (h e)) -> db_local p (try_except m h).
Proof.
  intros Hm Hh w q Hq. unfold try_except.
  specialize (Hm w q Hq). destruct (m w) as [w1 [a|e]]; simpl in *.
  - exact Hm.
  - rewrite Hh by exact Hq. exact Hm.
Qed.

Lemma db_local_if {A} (p : path) (b : bool) (m1 m2 : M A) :
  db_local p m1 -> db_local p m2 -> db_local p (if b then m1 else m2).
Proof. by destruct b. Qed.

Lemma db_local_mark (p : path) (st : string) (note : option string) :
  db_local p (mark p st note).
Proof. intros w q Hq. simpl. by rewrite lookup_insert_ne by congruence. Qed.

Lemma db_local_forM {A} (p : path) (l : list A) (f : A -> M unit) :
  (forall x, db_local p (f x)) -> db_local p (forM_ l f).
Proof.
  intros Hf. induction l as [|x l IH]; simpl.
  - apply db_local_ret.
  - apply db_local_bind; [apply Hf|intros _; exact IH].
Qed.

Lemma db_local_lift_rel (p : path) (o : option path) : db_local p (lift_rel o).
Proof. destruct o; intros w q _; reflexivity. Qed.

Lemma db_const_gets {A} (f : world -> A) : db_const (gets f).
Proof. intros w. reflexivity. Qed.

Lemma db_const_mkdir_one (q : path) : db_const (mkdir_one q).
Proof. intros w. unfold mkdir_one. by destruct (w_fs w !! q) as [[]|]. Qed.

Lemma db_const_os_rename (a b : path) : db_const (os_rename env a b).
Proof.
  intros w. unfold os_rename.
  destruct (o_rename_fails env a b); [reflexivity|].
  by destruct (w_fs w !! a) as [[]|], (w_fs w !! b) as [[]|].
Qed.

Lemma db_const_copy2 (a b : path) : db_const (copy2 a b).
Proof. intros w. unfold copy2. by destruct (w_fs w !! a) as [[]|]. Qed.

Lemma db_const_os_unlink (a : path) : db_const (os_unlink env a).
Proof.
  intros w. unfold os_unlink.
  destruct (o_unlink_fails env a); [reflexivity|]. by destruct (w_fs w !! a) as [[]|].
Qed.

Lemma db_const_stat (a : path) : db_const (stat a).
Proof. intros w. unfold stat. by destruct (st_size_of (w_fs w) a). Qed.

Lemma db_const_time_sleep (n : Z) : db_const (time_sleep env n).
Proof. intros w. reflexivity. Qed.

Lemma db_const_handbrake (a b : path) : db_const (transcode_with_handbrake ARGS env a b).
Proof.
  intros w. unfold transcode_with_handbrake. destruct (dry_run ARGS); [reflexivity|].
  by destruct (o_handbrake env a b) as [rc []].
Qed.

Create HintDb dblocal.
#[local] Hint Resolve db_local_ret db_local_if db_local_mark db_local_lift_rel : dblocal.
#[local] Hint Resolve db_const_gets db_const_mkdir_one db_const_os_rename db_const_copy2
  db_const_os_unlink db_const_stat db_const_time_sleep db_const_handbrake : dblocal.

(** Splits a [db_local] goal along the structure of the computation. *)
Ltac db_local_step :=
  match goal with
  | |- db_local _ (_ ≫= _) => apply db_local_bind; [|intros ?]
  | |- db_local _ (try_except _ _) => apply db_local_try; [|intros ?]
  | |- db_local _ (forM_ _ _) => apply db_local_forM; intros ?
  | |- db_local _ (if _ then _ else _) => apply db_local_if
  | |- db_local _ (match ?x with _ => _ end) => destruct x
  | |- db_local _ (mark _ _ _) => apply db_local_mark
  | |- db_local _ _ => apply db_const_local; solve [eauto with dblocal]
  | |- db_local _ _ => solve [eauto with dblocal]
  | |- db_local _ _ => intros ? ? ?; reflexivity
  end.

Lemma db_local_move_safe (p src dd : path) : db_local p (move_safe ARGS env src dd).
Proof.
  unfold move_safe, ensure_dir, try_pass. repeat db_local_step.
Qed.

Lemma db_local_process_movie_file (src dl out : path) :
  db_local src (process_movie_file ARGS env src dl out).
Proof.
  unfold process_movie_file, status_of, ask_confirm, file_is_stable, stat_opt,
    probe_step, probe_video, transcode_step, size_comparison_step, choose_dest_final,
    path_exists, ensure_dir, try_pass, raise.
  repeat (db_local_step || apply db_local_move_safe).
Qed.

(** ** The seasons flagged by the decision phase *)

Lemma set_add_elem (k x : string) (l : list string) : x ∈ set_add k l <-> x ∈ l \/ x = k.
Proof.
  unfold set_add. destruct (existsb (String.eqb k) l) eqn:E.
  - apply existsb_exists in E as (y & Hy & Hky). apply String.eqb_eq in Hky. subst y.
    apply list_elem_of_In in Hy. split; [by left|]. intros [H| ->]; done.
  - rewrite elem_of_app, list_elem_of_singleton. tauto.
Qed.

Lemma dict_get_elem (k : string) (vs : list path) (m : list (string * list path)) :
  NoDup (map fst m) -> dict_get k m = Some vs <-> (k, vs) ∈ m.
Proof.
  induction m as [|[k' vs'] m IH]; simpl; intros Hnd.
  - split; [discriminate|]. intros Hin. by apply elem_of_nil in Hin.
  - apply NoDup_cons in Hnd as [Hk' Hnd]. rewrite elem_of_cons.
    destruct (String.eqb k k') eqn:E.
    + apply String.eqb_eq in E. subst k'. split.
      * intros [= ->]. by left.
      * intros [[= ->]|Hin]; [reflexivity|]. exfalso. apply Hk'.
        apply list_elem_of_fmap. exists (k, vs). by split.
    + apply String.eqb_neq in E. rewrite IH by exact Hnd. split; [by right|].
      intros [[= ->]|Hin]; [done|exact Hin].
Qed.

Lemma dict_get_none (k : string) (vs : list path) (m : list (string * list path)) :
  dict_get k m = None -> (k, vs) ∉ m.
Proof.
  induction m as [|[k' vs'] m IH]; simpl; intros H Hin.
  - by apply elem_of_nil in Hin.
  - apply elem_of_cons in Hin as [[= <- <-]|Hin].
    + by rewrite String.eqb_refl in H.
    + destruct (String.eqb k k'); [discriminate|]. by apply IH.
Qed.

Lemma concat_entries_disjoint (m : list (string * list path)) (k1 k2 : string)
    (v1 v2 : list path) (q : path) :
  NoDup (concat (map snd m)) -> (k1, v1) ∈ m -> (k2, v2) ∈ m -> q ∈ v1 -> q ∈ v2 ->
  (k1, v1) = (k2, v2).
Proof.
  induction m as [|[k vs] m IH]; simpl; intros Hnd H1 H2 Hq1 Hq2.
  - by apply elem_of_nil in H1.
  - apply NoDup_app in Hnd as (Hvs & Hdis & Hnd).
    apply elem_of_cons in H1 as [E1|H1], H2 as [E2|H2]; try congruence.
    + injection E1 as -> ->. exfalso. apply (Hdis q Hq1).
      apply list_elem_of_In, in_concat. exists v2. split; [|by apply list_elem_of_In].
      apply in_map_iff. exists (k2, v2). split; [done|by apply list_elem_of_In].
    + injection E2 as -> ->. exfalso. apply (Hdis q Hq2).
      apply list_elem_of_In, in_concat. exists v1. split; [|by apply list_elem_of_In].
      apply in_map_iff. exists (k1, v1). split; [done|by apply list_elem_of_In].
    + by apply IH.
Qed.

Lemma concat_entry_nodup (m : list (string * list path)) (k : string) (vs : list path) :
  NoDup (concat (map snd m)) -> (k, vs) ∈ m -> NoDup vs.
Proof.
  induction m as [|[k' vs'] m IH]; simpl; intros Hnd Hin.
  - by apply elem_of_nil in Hin.
  - apply NoDup_app in Hnd as (Hvs & _ & Hnd).
    apply elem_of_cons in Hin as [[= -> ->]|Hin]; [done|by apply IH].
Qed.

Lemma entries_same_key (m : list (string * list path)) (k : string) (v1 v2 : list path) :
  NoDup (map fst m) -> (k, v1) ∈ m -> (k, v2) ∈ m -> v1 = v2.
Proof.
  intros Hnd H1 H2. apply (dict_get_elem _ _ _ Hnd) in H1, H2. congruence.
Qed.

Lemma process_group_spec (dl out : path) (k : string) (vids : list path)
    (needs needs' : list string) (w w' : world) :
  NoDup vids ->
  process_group ARGS env dl out k vids needs w = (w', Ok needs') ->
  (forall q, q ∉ vids -> w_db w' !! q = w_db w !! q) /\
  (forall x, x ∈ needs' <-> x ∈ needs \/
     (x = k /\ exists v, v ∈ vids /\ needs_copy_status (fr_status <$> w_db w' !! v) = true)).
Proof.
  revert needs w. induction vids as [|v vs IH]; simpl; intros needs w Hnd Hrun.
  - injection Hrun as <- <-. split; [done|]. intros x. split; [by left|].
    intros [H|(_ & v & Hv & _)]; [done|by apply elem_of_nil in Hv].
  - apply NoDup_cons in Hnd as [Hv Hnd].
    rewrite run_bind in Hrun.
    pose proof (db_local_process_movie_file v dl out w) as Hloc.
    destruct (process_movie_file ARGS env v dl out w) as [w1 [[]|e]]; [|discriminate].
    simpl in Hloc. rewrite run_bind in Hrun. unfold status_of, gets in Hrun.
    cbv beta iota in Hrun.
    destruct (IH _ _ Hnd Hrun) as [Hfr Hfl].
    assert (Hv' : w_db w' !! v = w_db w1 !! v) by (by apply Hfr).
    split.
    + intros q Hq. rewrite Hfr by (intros H; apply Hq; by right).
      apply Hloc. intros ->. apply Hq. by left.
    + intros x. rewrite Hfl.
      destruct (needs_copy_status (fr_status <$> w_db w1 !! v)) eqn:Hn.
      * rewrite set_add_elem. split.
        -- intros [[H| ->]|(-> & v' & Hin & Hc)].
           ++ by left.
           ++ right. split; [done|]. exists v. split; [by left|]. by rewrite Hv'.
           ++ right. split; [done|]. exists v'. split; [by right|exact Hc].
        -- intros [H|(-> & v' & Hin & Hc)]; [by left; left|].
           left; right; done.
      * split.
        -- intros [H|(-> & v' & Hin & Hc)]; [by left|].
           right. split; [done|]. exists v'. split; [by right|exact Hc].
        -- intros [H|(-> & v' & Hin & Hc)]; [by left|].
           apply elem_of_cons in Hin as [->|Hin].
           ++ rewrite Hv' in Hc. congruence.
           ++ right. split; [done|]. by exists v'.
Qed.

Lemma entry_sub_concat (m : list (string * list path)) (k : string) (vs : list path) (q : path) :
  (k, vs) ∈ m -> q ∈ vs -> q ∈ concat (map snd m).
Proof.
  intros Hin Hq. apply list_elem_of_In, in_concat. exists vs.
  split; [|by apply list_elem_of_In].
  apply in_map_iff. exists (k, vs). split; [done|by apply list_elem_of_In].
Qed.

Lemma process_seasons_spec (dl out : path) (mapping : list (string * list path))
    (needs needs' : list string) (w w' : world) :
  NoDup (concat (map snd mapping)) ->
  process_seasons ARGS env dl out mapping needs w = (w', Ok needs') ->
  (forall q, (forall k vs, (k, vs) ∈ mapping -> k <> "" -> q ∉ vs) ->
     w_db w' !! q = w_db w !! q) /\
  (forall x, x ∈ needs' <-> x ∈ needs \/
     exists vids, (x, vids) ∈ mapping /\ x <> "" /\
       exists v, v ∈ vids /\ needs_copy_status (fr_status <$> w_db w' !! v) = true).
Proof.
  revert needs w. induction mapping as [|[k vids] mapping IH]; simpl; intros needs w Hnd Hrun.
  - injection Hrun as <- <-. split; [done|]. intros x. split; [by left|].
    intros [H|(vids & Hin & _)]; [done|by apply elem_of_nil in Hin].
  - apply NoDup_app in Hnd as (Hvs & Hdis & Hnd).
    rewrite run_bind in Hrun.
    destruct (String.eqb k "") eqn:Hk.
    + apply String.eqb_eq in Hk. subst k. rewrite run_ret in Hrun.
      destruct (IH _ _ Hnd Hrun) as [Hfr Hfl]. split.
      * intros q Hq. apply Hfr. intros k vs Hin Hne. apply (Hq k vs); [by right|done].
      * intros x. rewrite Hfl. split.
        -- intros [H|(vs & Hin & Hne & Hc)]; [by left|]. right. exists vs. split; [by right|done].
        -- intros [H|(vs & Hin & Hne & Hc)]; [by left|].
           apply elem_of_cons in Hin as [[= -> ->]|Hin]; [done|].
           right. by exists vs.
    + apply String.eqb_neq in Hk.
      destruct (process_group ARGS env dl out k vids needs w) as [w1 [na|e]] eqn:Eg;
        [|discriminate].
      destruct (process_group_spec dl out k vids needs na w w1 Hvs Eg) as [Hgfr Hgfl].
      destruct (IH _ _ Hnd Hrun) as [Hfr Hfl].
      assert (Hkeep : forall v, v ∈ vids -> w_db w' !! v = w_db w1 !! v).
      { intros v Hv. apply Hfr. intros k' vs' Hin _ Hv'.
        apply (Hdis v Hv). by apply (entry_sub_concat _ k' vs'). }
      split.
      * intros q Hq. rewrite Hfr.
        { apply Hgfr. intros Hv. by apply (Hq k vids); [left|..]. }
        intros k' vs' Hin Hne. apply (Hq k' vs'); [by right|done].
      * intros x. rewrite Hfl, Hgfl. split.
        -- intros [[H|(-> & v & Hv & Hc)]|(vs & Hin & Hne & Hc)].
           ++ by left.
           ++ right. exists vids. split; [by left|]. split; [done|].
              exists v. split; [done|]. by rewrite Hkeep.
           ++ right. exists vs. split; [by right|done].
        -- intros [H|(vs & Hin & Hne & v & Hv & Hc)]; [by left; left|].
           apply elem_of_cons in Hin as [[= -> ->]|Hin].
           ++ left. right. split; [done|]. exists v. split; [done|]. by rewrite <- Hkeep.
           ++ right. exists vs. split; [done|]. split; [done|]. by exists v.
Qed.

(** The decision phase: the rows it writes are those of the grouped
    videos, and a season key is flagged exactly when one of its videos
    ends the phase with a status that asks for the copy. *)
Lemma process_groups_spec (dl out : path) (mapping : list (string * list path))
    (needs : list string) (w w' : world) :
  NoDup (map fst mapping) -> NoDup (concat (map snd mapping)) ->
  process_groups ARGS env dl out mapping w = (w', Ok needs) ->
  (forall q, q ∉ concat (map snd mapping) -> w_db w' !! q = w_db w !! q) /\
  (forall x, x ∈ needs <-> exists vids, (x, vids) ∈ mapping /\
       exists v, v ∈ vids /\ needs_copy_status (fr_status <$> w_db w' !! v) = true).
Proof.
  intros Hk Hnd Hrun. unfold process_groups in Hrun. rewrite run_bind in Hrun.
  assert (Hout : forall q, q ∉ concat (map snd mapping) ->
     forall k vs, (k, vs) ∈ mapping -> k <> "" -> q ∉ vs).
  { intros q Hq k vs Hin _ Hv. apply Hq. by apply (entry_sub_concat _ k vs). }
  destruct (dict_get "" mapping) as [vids0|] eqn:Hd.
  - apply (dict_get_elem _ _ _ Hk) in Hd.
    pose proof (concat_entry_nodup _ _ _ Hnd Hd) as Hnd0.
    destruct (process_group ARGS env dl out "" vids0 [] w) as [w0 [n0|e]] eqn:Eg;
      [|discriminate].
    destruct (process_group_spec dl out "" vids0 [] n0 w w0 Hnd0 Eg) as [Hgfr Hgfl].
    destruct (process_seasons_spec dl out mapping n0 needs w0 w' Hnd Hrun) as [Hfr Hfl].
    assert (Hkeep : forall v, v ∈ vids0 -> w_db w' !! v = w_db w0 !! v).
    { intros v Hv. apply Hfr. intros k vs Hin Hne Hv'.
      pose proof (concat_entries_disjoint _ _ _ _ _ _ Hnd Hd Hin Hv Hv') as E.
      injection E as <- _. done. }
    split.
    + intros q Hq. rewrite Hfr by (by apply Hout). apply Hgfr. intros Hv. apply Hq.
      by apply (entry_sub_concat _ "" vids0).
    + intros x. rewrite Hfl, Hgfl. split.
      * intros [[H|(-> & v & Hv & Hc)]|(vs & Hin & Hne & Hc)].
        -- by apply elem_of_nil in H.
        -- exists vids0. split; [done|]. exists v. split; [done|]. by rewrite Hkeep.
        -- by exists vs.
      * intros (vs & Hin & v & Hv & Hc).
        destruct (String.eqb x "") eqn:Ex.
        -- apply String.eqb_eq in Ex. subst x.
           pose proof (entries_same_key _ _ _ _ Hk Hd Hin) as <-.
           left. right. split; [done|]. exists v. split; [done|]. by rewrite <- Hkeep.
        -- apply String.eqb_neq in Ex. right. exists vs. split; [done|]. split; [done|].
           by exists v.
  - rewrite run_ret in Hrun.
    destruct (process_seasons_spec dl out mapping [] needs w w' Hnd Hrun) as [Hfr Hfl].
    split.
    + intros q Hq. apply Hfr. by apply Hout.
    + intros x. rewrite Hfl. split.
      * intros [H|(vs & Hin & _ & Hc)]; [by apply elem_of_nil in H|]. by exists vs.
      * intros (vs & Hin & Hc). right. exists vs. split; [done|]. split; [|done].
        intros ->. by apply (dict_get_none "" vs mapping Hd).
Qed.

(** ** The consolidation phase *)

Lemma relative_to_app (p root r : path) : relative_to p root = Some r <-> p = root ++ r.
Proof.
  revert p. induction root as [|a root IH]; intros p.
  - destruct p; simpl; split; [intros [= ->]|intros ->| intros [= ->]|intros ->]; reflexivity.
  - destruct p as [|c p]; simpl.
    + split; [discriminate|]. intros [=].
    + destruct (String.eqb a c) eqn:E.
      * apply String.eqb_eq in E. subst c. rewrite IH. split; [by intros ->|].
        intros [= ->]. reflexivity.
      * apply String.eqb_neq in E. split; [discriminate|]. intros [= ->]. done.
Qed.

(** Everything the consolidation phase writes to the file system lies
    under [out], which is disjoint from the show's top directory. *)
Definition apart (out topdir : path) : Prop := forall x, relative_to (out ++ x) topdir = None.

Lemma apart_prefixes (out topdir y q : path) :
  apart out topdir -> q ∈ prefixes (out ++ y) -> relative_to q topdir = None.
Proof.
  intros Hap Hq. unfold prefixes in Hq.
  apply list_elem_of_In, in_map_iff in Hq as (n & <- & _).
  destruct (relative_to (take n (out ++ y)) topdir) as [r|] eqn:E; [|reflexivity].
  apply relative_to_app in E. exfalso.
  specialize (Hap y). rewrite <- (take_drop n (out ++ y)), E, <- app_assoc in Hap.
  assert (relative_to (topdir ++ (r ++ drop n (out ++ y))) topdir =
          Some (r ++ drop n (out ++ y))) as E2 by (by apply relative_to_app).
  congruence.
Qed.

Lemma apart_app (out topdir y r : path) :
  apart out topdir -> relative_to ((out ++ y) ++ r) topdir = None.
Proof. intros Hap. rewrite <- app_assoc. apply Hap. Qed.

Lemma season_dest_dir_out (out rel : path) (k : string) :
  exists y, season_dest_dir out rel k = out ++ y.
Proof. unfold season_dest_dir. destruct (String.eqb k ""); eauto. Qed.

Lemma season_src_dir_under (topdir : path) (k : string) (f : path) (r : path) :
  relative_to f (season_src_dir topdir k) = Some r -> is_Some (relative_to f topdir).
Proof.
  intros H. apply relative_to_app in H. subst f. unfold season_src_dir.
  destruct (String.eqb k ""); [|rewrite <- app_assoc]; eexists; by apply relative_to_app.
Qed.

Lemma copytree_fs_frame (src dst q : path) (fs : gmap path entry) :
  (forall r, q <> dst ++ r) -> copytree_fs src dst fs !! q = fs !! q.
Proof.
  intros Hq. unfold copytree_fs. induction (map_to_list fs) as [|[p e] l IH]; simpl; [done|].
  destruct (relative_to p src) as [[|x r]|]; [exact IH| |exact IH].
  rewrite lookup_insert_ne; [exact IH|]. intros E. by apply (Hq (x :: r)).
Qed.

Lemma rglob_elem (fs : gmap path entry) (d f : path) (e : entry) (x : string) (r : path) :
  fs !! f = Some e -> relative_to f d = Some (x :: r) -> In f (rglob fs d).
Proof.
  intros He Hr. unfold rglob. apply filter_In. rewrite Hr. split; [|reflexivity].
  apply in_map_iff. exists (f, e). split; [reflexivity|].
  apply list_elem_of_In. by apply elem_of_map_to_list.
Qed.

(** [for f in src_dir.rglob("*"): if f.is_file() and ...: mark(...)] *)
Lemma stamp_loop_spec (files : list path) (note : option string) (w w' : world)
    (r : result unit) :
  forM_ files (fun f =>
      isv ← gets (fun w => is_video_file (w_fs w) f);
      if (isv : bool) then mark f "copied_season" note else mret tt) w = (w', r) ->
  r = Ok tt /\ w_fs w' = w_fs w /\
  (exists t, w_trace w' = w_trace w ++ t /\ Forall (fun a => exists p s, a = AMark p s) t) /\
  (forall q, w_db w' !! q = w_db w !! q \/ fr_status <$> w_db w' !! q = Some "copied_season") /\
  (forall f, In f files -> is_video_file (w_fs w) f = true ->
     fr_status <$> w_db w' !! f = Some "copied_season").
Proof.
  revert w. induction files as [|f files IH]; intros w Hrun; simpl in Hrun.
  - injection Hrun as <- <-. split_and!; auto.
    + exists []. rewrite app_nil_r. auto.
    + intros f [].
  - rewrite run_bind, run_bind in Hrun. unfold gets at 1 in Hrun. cbv beta iota in Hrun.
    destruct (is_video_file (w_fs w) f) eqn:Hv.
    + pose proof (mark_run f "copied_season" note w) as Hm.
      destruct (mark f "copied_season" note w) as [w1 r1].
      destruct Hm as (-> & Hfs1 & _ & Htr1 & Hst1 & _ & Hfr1).
      destruct (IH _ Hrun) as (-> & Hfs & (t & Ht & Hall) & Hdb & Hst).
      rewrite Hfs1 in Hst. split_and!; auto.
      * congruence.
      * exists (AMark f "copied_season" :: t). rewrite Ht, Htr1, <- app_assoc.
        split; [reflexivity|]. constructor; eauto.
      * intros q. destruct (decide (q = f)) as [->|Hne].
        -- destruct (Hdb f) as [E|E]; [rewrite E|]; auto.
        -- rewrite <- (Hfr1 q Hne). apply Hdb.
      * intros g [<-|Hg] Hvg.
        -- destruct (Hdb f) as [E|E]; [rewrite E|]; auto.
        -- by apply Hst.
    + rewrite run_ret in Hrun.
      destruct (IH _ Hrun) as (-> & Hfs & Ht & Hdb & Hst). split_and!; auto.
      intros g [<-|Hg] Hvg; [congruence|]. by apply Hst.
Qed.

(** One iteration of the season-level copy loop, outside dry-run. *)
Lemma consolidate_season_spec (topdir dl out rel : path) (k : string) (w w' : world) :
  dry_run ARGS = false ->
  relative_to topdir dl = Some rel ->
  apart out topdir ->
  consolidate_season ARGS topdir dl out k w = (w', Ok tt) ->
  (forall q, is_Some (relative_to q topdir) -> w_fs w' !! q = w_fs w !! q) /\
  (exists t, w_trace w' = w_trace w ++ t /\
     forall a b, ACopyTree a b ∈ t <->
       exists_ (w_fs w) (season_src_dir topdir k) = true /\
       a = season_src_dir topdir k /\ b = season_dest_dir out rel k) /\
  (forall q, w_db w' !! q = w_db w !! q \/ fr_status <$> w_db w' !! q = Some "copied_season") /\
  (exists_ (w_fs w) (season_src_dir topdir k) = true ->
   forall f x r, relative_to f (season_src_dir topdir k) = Some (x :: r) ->
     is_video_file (w_fs w') f = true -> fr_status <$> w_db w' !! f = Some "copied_season").
Proof.
  intros Hdry Hrel Hap Hrun.
  unfold consolidate_season in Hrun. rewrite run_bind, Hrel in Hrun. unfold lift_rel in Hrun.
  rewrite run_ret in Hrun. cbv zeta in Hrun.
  rewrite run_bind in Hrun. unfold path_exists, gets at 1 in Hrun. cbv beta iota in Hrun.
  destruct (season_dest_dir_out out rel k) as [y Hy].
  set (src := season_src_dir topdir k) in *.
  set (dest := season_dest_dir out rel k) in *.
  destruct (exists_ (w_fs w) src) eqn:Hex.
  2: { rewrite run_ret in Hrun. injection Hrun as <-. split_and!; auto.
       - exists []. rewrite app_nil_r. split; [done|]. intros a b. split.
         + intros H. by apply elem_of_nil in H.
         + intros (? & _). discriminate.
       - discriminate. }
  rewrite run_bind in Hrun. unfold copy_tree_safe in Hrun. rewrite run_bind in Hrun.
  unfold ensure_dir in Hrun.
  destruct (forM_ (prefixes dest) mkdir_one w) as [wm rm] eqn:Hm.
  apply forM_mkdir_frame in Hm as (Hdbm & _ & _ & Hfsm & _ & _ & tm & Htm & Hallm).
  destruct rm as [[]|e]; [|discriminate].
  rewrite Hdry in Hrun. unfold modify in Hrun. cbv beta iota in Hrun.
  rewrite run_bind in Hrun. unfold gets at 1 in Hrun. cbv beta iota in Hrun.
  apply stamp_loop_spec in Hrun as (_ & Hfs & (ts & Hts & Halls) & Hdb & Hst).
  cbn [w_fs w_db w_trace add_trace set_fs] in Hfs, Hts, Hdb, Hst.
  assert (Hfr : forall q, is_Some (relative_to q topdir) -> w_fs w' !! q = w_fs w !! q).
  { intros q [rq Hq]. rewrite Hfs, copytree_fs_frame.
    - apply Hfsm. intros Hin. rewrite Hy in Hin.
      pose proof (apart_prefixes _ _ _ _ Hap Hin). congruence.
    - intros r E. subst q. rewrite Hy, (apart_app out topdir y r Hap) in Hq. discriminate. }
  split_and!.
  - exact Hfr.
  - exists (tm ++ [ACopyTree src dest] ++ ts). split.
    + rewrite Hts, Htm. by rewrite <- !app_assoc.
    + intros a b. rewrite !elem_of_app, list_elem_of_singleton. split.
      * intros [Hin|[[= -> ->]|Hin]].
        -- rewrite Forall_forall in Hallm. destruct (Hallm _ Hin) as [? [=]].
        -- auto.
        -- rewrite Forall_forall in Halls. destruct (Halls _ Hin) as (? & ? & [=]).
      * intros (_ & -> & ->). by right; left.
  - intros q. destruct (Hdb q) as [E|E]; [left; by rewrite E, Hdbm|by right].
  - intros _ f x r Hf Hvf. rewrite <- Hfs in Hst. apply Hst; [|exact Hvf].
    unfold is_video_file, is_file in Hvf.
    destruct (w_fs w' !! f) as [e|] eqn:Ef; [|discriminate].
    by apply (rglob_elem _ _ _ e x r).
Qed.

(** The loop [for sk in list(season_needs_copy)], outside dry-run. *)
Lemma consolidate_loop_spec (topdir dl out rel : path) (L : list string) (w w' : world) :
  dry_run ARGS = false ->
  relative_to topdir dl = Some rel ->
  apart out topdir ->
  forM_ L (consolidate_season ARGS topdir dl out) w = (w', Ok tt) ->
  (forall q, is_Some (relative_to q topdir) -> w_fs w' !! q = w_fs w !! q) /\
  (exists t, w_trace w' = w_trace w ++ t /\
     forall a b, ACopyTree a b ∈ t <-> exists k, k ∈ L /\
       exists_ (w_fs w) (season_src_dir topdir k) = true /\
       a = season_src_dir topdir k /\ b = season_dest_dir out rel k) /\
  (forall q, w_db w' !! q = w_db w !! q \/ fr_status <$> w_db w' !! q = Some "copied_season") /\
  (forall k f x r, k ∈ L -> exists_ (w_fs w) (season_src_dir topdir k) = true ->
     relative_to f (season_src_dir topdir k) = Some (x :: r) ->
     is_video_file (w_fs w') f = true -> fr_status <$> w_db w' !! f = Some "copied_season").
Proof.
  intros Hdry Hrel Hap. revert w. induction L as [|k L IH]; intros w Hrun; simpl in Hrun.
  - injection Hrun as <-. split_and!; auto.
    + exists []. rewrite app_nil_r. split; [done|]. intros a b. split.
      * intros H. by apply elem_of_nil in H.
      * intros (? & H & _). by apply elem_of_nil in H.
    + intros k f x r H. by apply elem_of_nil in H.
  - rewrite run_bind in Hrun.
    destruct (consolidate_season ARGS topdir dl out k w) as [w1 [[]|e]] eqn:E1; [|discriminate].
    destruct (consolidate_season_spec topdir dl out rel k w w1 Hdry Hrel Hap E1)
      as (Hfr1 & (t1 & Ht1 & Hc1) & Hdb1 & Hst1).
    destruct (IH _ Hrun) as (Hfr & (t & Ht & Hc) & Hdb & Hst).
    assert (Hex : forall k', exists_ (w_fs w1) (season_src_dir topdir k') =
                             exists_ (w_fs w) (season_src_dir topdir k')).
    { intros k'. unfold exists_. rewrite Hfr1; [reflexivity|].
      apply (season_src_dir_under topdir k' _ []). apply relative_to_app.
      by rewrite app_nil_r. }
    split_and!.
    + intros q Hq. rewrite Hfr by exact Hq. by apply Hfr1.
    + exists (t1 ++ t). split; [by rewrite Ht, Ht1, <- app_assoc|].
      intros a b. rewrite elem_of_app, Hc1, Hc. split.
      * intros [(Hx & -> & ->)|(k' & Hk' & Hx & -> & ->)].
        -- exists k. split; [by left|auto].
        -- exists k'. rewrite Hex in Hx. split; [by right|auto].
      * intros (k' & Hk' & Hx & -> & ->). apply elem_of_cons in Hk' as [->|Hk']; [by left|].
        right. exists k'. rewrite Hex. auto.
    + intros q. destruct (Hdb q) as [E|E]; [|by right]. rewrite E. apply Hdb1.
    + intros k' f x r Hk' Hx Hf Hvf. apply elem_of_cons in Hk' as [->|Hk'].
      * destruct (Hdb f) as [E|E]; [|exact E]. rewrite E.
        apply (Hst1 Hx f x r Hf). rewrite <- Hvf. unfold is_video_file, is_file.
        rewrite Hfr; [reflexivity|]. by apply (season_src_dir_under topdir k f (x :: r)).
      * apply (Hst k' f x r Hk'); [by rewrite Hex|exact Hf|exact Hvf].
Qed.

(** What the poster step may do to a show's top directory, its statuses and
    its tree copies: nothing. *)
Definition poster_frame (topdir : path) (w w' : world) : Prop :=
  w_db w' = w_db w /\
  (forall q, is_Some (relative_to q topdir) -> w_fs w' !! q = w_fs w !! q) /\
  exists t, w_trace w' = w_trace w ++ t /\ forall a b, ACopyTree a b ∉ t.

Lemma poster_frame_refl (topdir : path) (w : world) : poster_frame topdir w w.
Proof.
  split_and!; [done|done|]. exists []. rewrite app_nil_r. split; [done|].
  intros a b H. by apply elem_of_nil in H.
Qed.

Lemma poster_frame_trans (topdir : path) (w1 w2 w3 : world) :
  poster_frame topdir w1 w2 -> poster_frame topdir w2 w3 -> poster_frame topdir w1 w3.
Proof.
  intros (Hdb1 & Hfs1 & t1 & Ht1 & Hc1) (Hdb2 & Hfs2 & t2 & Ht2 & Hc2).
  split_and!; [congruence| |].
  - intros q Hq. rewrite Hfs2 by exact Hq. by apply Hfs1.
  - exists (t1 ++ t2). rewrite Ht2, Ht1, <- app_assoc. split; [done|].
    intros a b. rewrite elem_of_app. intros [H|H]; [by apply (Hc1 a b)|by apply (Hc2 a b)].
Qed.

Lemma fetch_poster_frame (show : string) (topdir out dl : path) (key : option string)
    (w w' : world) (r : result bool) :
  apart out topdir ->
  fetch_and_save_show_poster ARGS env show out key dl false w = (w', r) ->
  poster_frame topdir w w'.
Proof.
  intros Hap Hrun. unfold fetch_and_save_show_poster in Hrun.
  destruct key as [k|]; [|injection Hrun as <- _; apply poster_frame_refl].
  unfold try_except in Hrun.
  destruct (o_poster env show) as [sz|]; [|injection Hrun as <- _; apply poster_frame_refl].
  destruct (sz =? 0); [injection Hrun as <- _; apply poster_frame_refl|].
  cbv zeta iota in Hrun.
  destruct (dry_run ARGS); [injection Hrun as <- _; apply poster_frame_refl|].
  set (dest := out ++ [show +:+ ".jpg"]) in *.
  rewrite run_bind in Hrun.
  destruct (ensure_dir (parent dest) w) as [wm rm] eqn:Hm.
  unfold ensure_dir in Hm.
  apply forM_mkdir_frame in Hm as (Hdbm & _ & _ & Hfsm & _ & _ & tm & Htm & Hallm).
  assert (Hwm : poster_frame topdir w wm).
  { split_and!; [exact Hdbm| |].
    - intros q [rq Hq]. apply Hfsm. intros Hin.
      unfold dest, parent in Hin. rewrite removelast_last, <- (app_nil_r out) in Hin.
      pose proof (apart_prefixes _ _ _ _ Hap Hin). congruence.
    - exists tm. split; [exact Htm|]. intros a b Hin.
      rewrite Forall_forall in Hallm. destruct (Hallm _ Hin) as [? [=]]. }
  destruct rm as [[]|e]; [|injection Hrun as <- _; exact Hwm].
  rewrite run_bind in Hrun. unfold write_file in Hrun.
  destruct (w_fs wm !! dest) as [[sz'|]|] eqn:Hd.
  2: { injection Hrun as <- _. exact Hwm. }
  all: injection Hrun as <- _; apply (poster_frame_trans _ _ wm); [exact Hwm|];
    split_and!; [done| |].
  all: try (intros q [rq Hq]; cbn [w_fs add_trace set_fs]; rewrite lookup_insert_ne;
            [reflexivity|]; intros E; rewrite <- E in Hq; unfold dest in Hq; rewrite (Hap [show +:+ ".jpg"]) in Hq; discriminate).
  all: exists [APoster dest]; split; [reflexivity|];
    intros a b Hin; apply list_elem_of_singleton in Hin; discriminate.
Qed.

(** * Season-level consolidation *)

(** C4 (as amended): outside dry-run, for a show grouping that is processed
    without an exception, the decision phase flags a season identifier
    exactly when one of that season's videos has status [skipped_moved] or
    [kept_original_moved] once the engine has processed it; the rest of
    the pass copies the source subtree of a season (the whole top
    directory for [""]) to its mirrored destination exactly when the season
    is flagged and that subtree still exists when the loop reaches it; and
    every video file anywhere in a copied subtree ends the pass with status
    [copied_season], whatever status it held before. *)
Theorem season_copy_iff_flagged (topdir dl out rel : path) (key : option string) (w : world) :
  dry_run ARGS = false ->
  (forall l x, x ∈ o_set_iter env l <-> x ∈ l) ->
  relative_to topdir dl = Some rel ->
  apart out topdir ->
  let mapping := collect_videos_two_depth (w_fs w) topdir in
  NoDup (map fst mapping) -> NoDup (concat (map snd mapping)) ->
  let '(w', r) := process_show_topdir ARGS env topdir dl out key w in
  r = Ok tt ->
  exists w1 needs t,
    process_groups ARGS env dl out mapping w = (w1, Ok needs) /\
    (forall k, k ∈ needs <-> exists vids, (k, vids) ∈ mapping /\
        exists v, v ∈ vids /\ needs_copy_status (fr_status <$> w_db w1 !! v) = true) /\
    w_trace w' = w_trace w1 ++ t /\
    (forall a b, ACopyTree a b ∈ t <-> exists k, k ∈ needs /\
        exists_ (w_fs w1) (season_src_dir topdir k) = true /\
        a = season_src_dir topdir k /\ b = season_dest_dir out rel k) /\
    (forall k f x r', k ∈ needs -> exists_ (w_fs w1) (season_src_dir topdir k) = true ->
        relative_to f (season_src_dir topdir k) = Some (x :: r') ->
        is_video_file (w_fs w') f = true ->
        fr_status <$> w_db w' !! f = Some "copied_season").
Proof.
  intros Hdry Hiter Hrel Hap mapping Hk Hnd.
  unfold process_show_topdir. rewrite run_bind. unfold gets at 1. cbv beta iota.
  change (collect_videos_two_depth (w_fs w) topdir) with mapping.
  clearbody mapping.
  destruct mapping as [|m0 ms].
  { rewrite run_ret. intros _. exists w, [], []. split_and!.
    - reflexivity.
    - intros k. split; [intros H; by apply elem_of_nil in H|].
      intros (vids & H & _). by apply elem_of_nil in H.
    - by rewrite app_nil_r.
    - intros a b. split; [intros H; by apply elem_of_nil in H|].
      intros (k & H & _). by apply elem_of_nil in H.
    - intros k f x r' H. by apply elem_of_nil in H. }
  set (mapping := m0 :: ms) in *.
  rewrite run_bind.
  destruct (process_groups ARGS env dl out mapping w) as [w1 [needs|e]] eqn:Hg;
    cbv beta iota; [|intros [=]].
  rewrite run_bind.
  destruct (forM_ (o_set_iter env needs) (consolidate_season ARGS topdir dl out) w1)
    as [w2 [[]|e]] eqn:Hc; cbv beta iota; [|intros [=]].
  destruct (process_groups_spec dl out mapping needs w w1 Hk Hnd Hg) as [_ Hflag].
  destruct (consolidate_loop_spec topdir dl out rel (o_set_iter env needs) w1 w2
              Hdry Hrel Hap Hc) as (Hfr & (t2 & Ht2 & Hc2) & _ & Hst2).
  enough (Hend : forall w', poster_frame topdir w2 w' -> exists t,
    w_trace w' = w_trace w1 ++ t /\
    (forall a b, ACopyTree a b ∈ t <-> exists k, k ∈ needs /\
        exists_ (w_fs w1) (season_src_dir topdir k) = true /\
        a = season_src_dir topdir k /\ b = season_dest_dir out rel k) /\
    (forall k f x r', k ∈ needs -> exists_ (w_fs w1) (season_src_dir topdir k) = true ->
        relative_to f (season_src_dir topdir k) = Some (x :: r') ->
        is_video_file (w_fs w') f = true ->
        fr_status <$> w_db w' !! f = Some "copied_season")).
  { destruct (negb (no_posters ARGS) && negb (posters_only ARGS)).
    - rewrite run_bind.
      destruct (fetch_and_save_show_poster ARGS env (name topdir) out key dl false w2)
        as [w3 r3] eqn:Hp.
      apply (fetch_poster_frame _ topdir) in Hp; [|exact Hap].
      destruct r3 as [?|e]; cbv beta iota; [|intros [=]].
      rewrite run_ret. intros _. destruct (Hend w3 Hp) as (t & ? & ? & ?).
      exists w1, needs, t. auto.
    - rewrite run_ret. intros _. destruct (Hend w2 (poster_frame_refl topdir w2)) as (t & ? & ? & ?).
      exists w1, needs, t. auto. }
  intros w' (Hdb3 & Hfs3 & t3 & Ht3 & Hc3).
  exists (t2 ++ t3). split_and!.
  - by rewrite Ht3, Ht2, <- app_assoc.
  - intros a b. rewrite elem_of_app. split.
    + intros [Hin|Hin]; [|by apply Hc3 in Hin].
      apply Hc2 in Hin as (k & Hk' & Hx). exists k. rewrite <- Hiter. auto.
    + intros (k & Hk' & Hx). left. apply Hc2. exists k. rewrite Hiter. auto.
  - intros k f x r' Hk' Hx Hf Hvf. rewrite Hdb3.
    apply (Hst2 k f x r'); [by rewrite Hiter|exact Hx|exact Hf|].
    rewrite <- Hvf. unfold is_video_file, is_file.
    rewrite Hfs3; [reflexivity|]. by apply (season_src_dir_under topdir k f (x :: r')).
Qed.

(** * Further properties of the script *)

(** ** Temporary names *)

Lemma prefix_substring_0 (n h : string) :
  String.substring 0 (String.length n) h = n -> String.prefix n h = true.
Proof. intros H. by apply prefix_correct. Qed.

Lemma contains_substring (n h : string) (i : nat) :
  String.substring i (String.length n) h = n -> Py.contains n h = true.
Proof.
  revert i. induction h as [|c h IH]; intros i H.
  - destruct i; simpl in H; (destruct (String.length n); subst; reflexivity).
  - destruct i as [|i].
    + change (Py.contains n (String c h)) with (String.prefix n (String c h) || Py.contains n h).
      apply prefix_substring_0 in H. by rewrite H.
    + change (Py.contains n (String c h)) with (String.prefix n (String c h) || Py.contains n h).
      simpl in H. rewrite (IH i H). apply orb_true_r.
Qed.

Lemma endswith_contains (sfx hay : string) :
  Py.endswith sfx hay = true -> Py.contains sfx hay = true.
Proof.
  unfold Py.endswith. rewrite andb_true_iff, String.eqb_eq. intros [_ H].
  by apply contains_substring in H.
Qed.

(** X1: [is_temporary_name] holds exactly when one of [TEMP_PATTERNS] occurs
    anywhere in the name: the [endswith] test adds nothing to [in], so a
    name such as [Film.part1.mkv] counts as temporary. *)
Theorem is_temporary_name_iff_contains (nm : string) :
  is_temporary_name nm = true <-> exists pat, In pat TEMP_PATTERNS /\ Py.contains pat nm = true.
Proof.
  unfold is_temporary_name. rewrite existsb_exists. split.
  - intros (pat & Hin & H). exists pat. split; [exact Hin|].
    apply orb_true_iff in H as [H|H]; [by apply endswith_contains|exact H].
  - intros (pat & Hin & H). exists pat. split; [exact Hin|]. by rewrite H, orb_true_r.
Qed.

(** ** The status table *)


(** ** [ensure_dir] *)

Lemma forM_mkdir_dirs (l : list path) (w w' : world) (r : result unit) :
  forM_ l mkdir_one w = (w', r) ->
  (forall q, q ∈ l -> is_file (w_fs w) q = false) ->
  forall q, q ∈ l -> w_fs w' !! q = Some Dir.
Proof.
  revert w. induction l as [|q0 l IH]; intros w Hrun Hnf q Hq.
  - by apply elem_of_nil in Hq.
  - simpl in Hrun. rewrite run_bind in Hrun. unfold mkdir_one at 1 in Hrun.
    assert (Hq0 : w_fs w !! q0 = Some Dir \/ w_fs w !! q0 = None).
    { specialize (Hnf q0 ltac:(left)). unfold is_file in Hnf.
      destruct (w_fs w !! q0) as [[]|]; auto; discriminate. }
    apply elem_of_cons in Hq as [->|Hq].
    + destruct Hq0 as [Hq0|Hq0]; rewrite Hq0 in Hrun.
      * apply forM_mkdir_frame in Hrun as (_ & _ & Hpres & _). by apply Hpres.
      * apply forM_mkdir_frame in Hrun as (_ & _ & Hpres & _). apply Hpres.
        simpl. apply lookup_insert_eq.
    + destruct Hq0 as [Hq0|Hq0]; rewrite Hq0 in Hrun.
      * apply (IH w Hrun); [|exact Hq]. intros q' Hq'. apply Hnf. by right.
      * apply (IH _ Hrun); [|exact Hq]. intros q' Hq'. simpl. unfold is_file.
        destruct (decide (q0 = q')) as [->|Hne].
        -- by rewrite lookup_insert_eq.
        -- rewrite lookup_insert_ne by done. apply Hnf. by right.
Qed.

Lemma forM_mkdir_raise (l : list path) (w w' : world) (r : result unit) :
  forM_ l mkdir_one w = (w', r) ->
  (exists q, q ∈ l /\ is_file (w_fs w) q = true) -> exists e, r = Raise e.
Proof.
  revert w. induction l as [|q0 l IH]; intros w Hrun (q & Hq & Hf).
  - by apply elem_of_nil in Hq.
  - simpl in Hrun. rewrite run_bind in Hrun. unfold mkdir_one at 1 in Hrun.
    destruct (w_fs w !! q0) as [[sz|]|] eqn:Hq0.
    + injection Hrun as _ <-. eauto.
    + apply elem_of_cons in Hq as [->|Hq].
      * unfold is_file in Hf. by rewrite Hq0 in Hf.
      * eapply IH; [exact Hrun|]. eauto.
    + apply elem_of_cons in Hq as [->|Hq].
      * unfold is_file in Hf. by rewrite Hq0 in Hf.
      * eapply IH; [exact Hrun|]. exists q. split; [exact Hq|]. simpl. unfold is_file.
        rewrite lookup_insert_ne; [exact Hf|]. intros ->. unfold is_file in Hf.
        by rewrite Hq0 in Hf.
Qed.

Lemma prefixes_elem (p q : path) : q ∈ prefixes p <-> q <> [] /\ exists r, p = q ++ r.
Proof.
  unfold prefixes. rewrite list_elem_of_In, in_map_iff. split.
  - intros (n & <- & Hn). apply in_seq in Hn. split.
    + destruct p; simpl in Hn; [lia|]. destruct n; [lia|]. discriminate.
    + exists (drop n p). by rewrite take_drop.
  - intros (Hne & r & ->). exists (length q). split.
    + by rewrite take_app_length.
    + apply in_seq. rewrite length_app. destruct q; [done|]. simpl. lia.
Qed.

Lemma ensure_dir_run (p : path) (w : world) :
  let '(w', r) := ensure_dir p w in
  w_db w' = w_db w /\
  (forall q e, w_fs w !! q = Some e -> w_fs w' !! q = Some e) /\
  (forall q, ~ (exists r', p = q ++ r') -> w_fs w' !! q = w_fs w !! q) /\
  (exists t, w_trace w' = w_trace w ++ t /\ Forall (fun a => exists q, a = AMkdir q) t) /\
  (dir_creatable (w_fs w) p = true ->
     r = Ok tt /\ forall q r', q <> [] -> p = q ++ r' -> w_fs w' !! q = Some Dir) /\
  (dir_creatable (w_fs w) p = false -> exists e, r = Raise e).
Proof.
  destruct (ensure_dir p w) as [w' r] eqn:Hrun.
  pose proof Hrun as Hf. apply ensure_dir_frame in Hf as (Hdb & _ & Hpres & _ & _ & Hok & Ht).
  pose proof Hrun as Hf. unfold ensure_dir in Hf. apply forM_mkdir_frame in Hf as (_ & _ & _ & Hout & _).
  split_and!; auto.
  - intros q Hq. apply Hout. rewrite prefixes_elem. intros [_ ?]. auto.
  - intros Hc. split; [by apply Hok|]. intros q r' Hq Hp.
    eapply forM_mkdir_dirs; [exact Hrun| |].
    + intros q' Hq'. unfold dir_creatable in Hc. rewrite forallb_forall in Hc.
      apply list_elem_of_In in Hq'. specialize (Hc q' Hq'). by destruct (is_file (w_fs w) q').
    + apply prefixes_elem. eauto.
  - intros Hc. eapply forM_mkdir_raise; [exact Hrun|].
    destruct (existsb (is_file (w_fs w)) (prefixes p)) eqn:E.
    + apply existsb_exists in E as (q & Hq & Hf). exists q.
      split; [by apply list_elem_of_In|exact Hf].
    + exfalso. revert Hc E. unfold dir_creatable. generalize (prefixes p).
      intros l. induction l as [|a l IH]; simpl; [discriminate|].
      destruct (is_file (w_fs w) a); simpl; [discriminate|exact IH].
Qed.

(** X3: [ensure_dir p] ([mkdir(parents=True, exist_ok=True)]): when no regular
    file lies on the way it succeeds and afterwards [p] and each of its
    ancestors is a directory; otherwise it raises.  Either way it keeps
    every existing entry, changes no other path, writes no status and
    performs only [mkdir]s. *)
Theorem ensure_dir_spec (p : path) (w : world) :
  let '(w', r) := ensure_dir p w in
  w_db w' = w_db w /\
  (forall q e, w_fs w !! q = Some e -> w_fs w' !! q = Some e) /\
  (forall q, ~ (exists r', p = q ++ r') -> w_fs w' !! q = w_fs w !! q) /\
  (exists t, w_trace w' = w_trace w ++ t /\ Forall (fun a => exists q, a = AMkdir q) t) /\
  (dir_creatable (w_fs w) p = true ->
     r = Ok tt /\ forall q r', q <> [] -> p = q ++ r' -> w_fs w' !! q = Some Dir) /\
  (dir_creatable (w_fs w) p = false -> exists e, r = Raise e).
Proof. apply ensure_dir_run. Qed.

(** ** [copy_tree_safe] *)




(** ** [unique_dest] *)

(** X5: [unique_dest(dd / n)] is [dd / n] when that is free; otherwise the
    [while True] loop ends at the first free [{stem}_{i}{suffix}] of the
    same directory, [i >= 1], every earlier candidate being taken.  The
    result never exists. *)
Theorem unique_dest_first_free (fs : gmap path entry) (dd : path) (n : string) :
  exists_ fs (unique_dest fs (dd ++ [n])) = false /\
  ((exists_ fs (dd ++ [n]) = false /\ unique_dest fs (dd ++ [n]) = dd ++ [n]) \/
   (exists_ fs (dd ++ [n]) = true /\
    exists i, (1 <= i)%nat /\
      unique_dest fs (dd ++ [n]) = dd ++ [stem_of n +:+ "_" +:+ pretty i +:+ suffix_of n] /\
      forall j, (1 <= j < i)%nat ->
        exists_ fs (dd ++ [stem_of n +:+ "_" +:+ pretty j +:+ suffix_of n]) = true)).
Proof.
  split; [apply unique_dest_fresh|].
  destruct (unique_dest_shape fs (dd ++ [n])) as [H|(Hex & i & Hi & Heq & Hall)]; [by left|].
  right. split; [exact Hex|]. exists i. rewrite Heq, cand_app. split; [exact Hi|].
  split; [reflexivity|]. intros j Hj. rewrite <- cand_app. by apply Hall.
Qed.

(** ** [move_safe] outside dry-run *)

(** X6: Outside dry-run, [move_safe] of an existing file into a folder that
    can be created returns the destination, which then holds the file;
    the source is gone, unless the OS refused both the rename and the
    deletion of the source after the fallback copy, in which case the file
    exists twice.  No status is written. *)
Theorem move_safe_outcome (src dd : path) (s : Z) (w : world) :
  w_fs w !! src = Some (File s) -> dry_run ARGS = false -> dir_creatable (w_fs w) dd = true ->
  let '(w', r) := move_safe ARGS env src dd w in
  w_db w' = w_db w /\
  exists d, r = Ok d /\ w_fs w' !! d = Some (File s) /\
    (w_fs w' !! src = None \/
     (o_rename_fails env src d = true /\ o_unlink_fails env src = true /\
      w_fs w' !! src = Some (File s))).
Proof.
  intros Hsrc Hdry Hc. pose proof (move_safe_spec src dd s w Hsrc) as H.
  destruct (move_safe ARGS env src dd w) as [w' r].
  destruct H as (Hdb & _ & _ & Hok & Hd). split; [exact Hdb|].
  destruct (Hok Hc) as [d ->]. exists d. split; [reflexivity|].
  destruct (Hd d eq_refl) as (_ & _ & _ & Hout). by apply Hout.
Qed.

(** ** Posters *)

(** X7: [fetch_and_save_show_poster] never raises and writes no status.  It
    returns [True] exactly when there is an API key, TMDb yields a
    non-empty poster, and either the run is a dry-run or the poster can be
    written to [{show}.jpg] in the downloads root (posters-only) or the
    output root: no regular file on the way to that folder, and no folder
    at the file's path.  Outside dry-run, [True] means the file now holds
    the poster; a dry-run changes nothing. *)
Theorem fetch_and_save_show_poster_outcome (show : string) (out key_dl : path)
    (key : option string) (po : bool) (w : world) :
  let dest := (if po then key_dl else out) ++ [show +:+ ".jpg"] in
  let '(w', r) := fetch_and_save_show_poster ARGS env show out key key_dl po w in
  w_db w' = w_db w /\
  (dry_run ARGS = true -> w' = w) /\
  exists b, r = Ok b /\
    (b = true <->
       is_Some key /\ exists sz, o_poster env show = Some sz /\ sz <> 0 /\
         (dry_run ARGS = true \/
          (dir_creatable (w_fs w) (parent dest) = true /\ w_fs w !! dest <> Some Dir))) /\
    (b = true -> dry_run ARGS = false ->
       exists sz, o_poster env show = Some sz /\ w_fs w' !! dest = Some (File sz)).
Proof.
  intros dest. unfold fetch_and_save_show_poster.
  destruct key as [k|].
  2: { split_and!; [done|done|]. exists false. split; [done|]. split; [|discriminate].
       split; [discriminate|]. intros [[? [=]] _]. }
  unfold try_except.
  destruct (o_poster env show) as [sz|] eqn:Hp.
  2: { split_and!; [done|done|]. exists false. split; [done|]. split; [|discriminate].
       split; [discriminate|]. intros (_ & ? & [=] & _). }
  destruct (sz =? 0) eqn:Hz.
  { apply Z.eqb_eq in Hz. split_and!; [done|done|]. exists false. split; [done|].
    split; [|discriminate]. split; [discriminate|]. intros (_ & ? & [= <-] & Hne & _). done. }
  apply Z.eqb_neq in Hz. cbv zeta iota. fold dest.
  destruct (dry_run ARGS) eqn:Hdry.
  { split_and!; [done|done|]. exists true. split; [done|]. split; [|discriminate].
    split; [intros _; split; [eauto|]; exists sz; auto|done]. }
  rewrite run_bind.
  pose proof (ensure_dir_run (parent dest) w) as Hed.
  pose proof (ensure_dir_frame (parent dest) w) as Hfr.
  destruct (ensure_dir (parent dest) w) as [wm rm] eqn:Hm.
  destruct Hed as (Hdb & Hpres & _ & _ & Hok & Hraise).
  destruct (Hfr wm rm eq_refl) as (_ & _ & _ & Hlong & _).
  assert (Hd : w_fs wm !! dest = w_fs w !! dest).
  { apply Hlong. unfold dest, parent. rewrite removelast_last, length_app. simpl. lia. }
  destruct (dir_creatable (w_fs w) (parent dest)) eqn:Hc.
  - destruct (Hok eq_refl) as [-> _]. rewrite run_bind. unfold write_file.
    rewrite Hd. destruct (w_fs w !! dest) as [[s'|]|] eqn:Hwd.
    + cbn. split_and!; [exact Hdb|discriminate|]. exists true. split; [done|].
      split; [split; [intros _; split; [eauto|]; exists sz; split_and!; auto; right; split; congruence|done]|].
      intros _ _. exists sz. split; [done|]. apply lookup_insert_eq.
    + split_and!; [exact Hdb|discriminate|]. exists false. split; [done|].
      split; [|discriminate]. split; [discriminate|].
      intros (_ & ? & _ & _ & [?|[_ ?]]); congruence.
    + cbn. split_and!; [exact Hdb|discriminate|]. exists true. split; [done|].
      split; [split; [intros _; split; [eauto|]; exists sz; split_and!; auto; right; split; congruence|done]|].
      intros _ _. exists sz. split; [done|]. apply lookup_insert_eq.
  - destruct (Hraise eq_refl) as [e ->].
    split_and!; [exact Hdb|discriminate|]. exists false. split; [done|].
    split; [|discriminate]. split; [discriminate|].
    intros (_ & ? & _ & _ & [?|[? _]]); congruence.
Qed.

(** ** Footprints: the actions a computation may record and the status
    rows it may write *)

Definition fp_at {A} (P : action -> Prop) (D : path -> Prop) (m : M A) (w : world) : Prop :=
  (exists t, w_trace (fst (m w)) = w_trace w ++ t /\ Forall P t) /\
  (forall q, ~ D q -> w_db (fst (m w)) !! q = w_db w !! q).

Definition footprint {A} (P : action -> Prop) (D : path -> Prop) (m : M A) : Prop :=
  forall w, fp_at P D m w.

Section Footprint.
Context (P : action -> Prop) (D : path -> Prop).

Lemma fp_same {A} (m : M A) :
  (forall w, w_trace (fst (m w)) = w_trace w /\ w_db (fst (m w)) = w_db w) -> footprint P D m.
Proof.
  intros H w. unfold footprint, fp_at in *. destruct (H w) as [Ht Hd]. split.
  - exists []. rewrite Ht, app_nil_r. auto.
  - intros q _. by rewrite Hd.
Qed.

Lemma fp_ret {A} (a : A) : footprint P D (mret a : M A).
Proof. apply fp_same. auto. Qed.

Lemma fp_raise {A} (e : exn) : footprint P D (raise e : M A).
Proof. apply fp_same. auto. Qed.

Lemma fp_gets {A} (g : world -> A) : footprint P D (gets g).
Proof. apply fp_same. auto. Qed.

Lemma fp_bind_post {A B} (Q : A -> Prop) (m : M A) (f : A -> M B) :
  (forall w w' a, m w = (w', Ok a) -> Q a) ->
  footprint P D m -> (forall a, Q a -> footprint P D (f a)) -> footprint P D (m ≫= f).
Proof.
  intros HQ Hm Hf w. unfold footprint, fp_at in *. rewrite run_bind. specialize (Hm w).
  destruct (m w) as [w1 [a|e]] eqn:E; [|exact Hm].
  simpl in Hm. destruct Hm as ((t1 & Ht1 & HP1) & Hd1).
  destruct (Hf a (HQ _ _ _ E) w1) as ((t2 & Ht2 & HP2) & Hd2). split.
  - exists (t1 ++ t2). rewrite Ht2, Ht1, <- app_assoc. split; [done|]. by apply Forall_app.
  - intros q Hq. by rewrite Hd2, Hd1.
Qed.

Lemma fp_bind {A B} (m : M A) (f : A -> M B) :
  footprint P D m -> (forall a, footprint P D (f a)) -> footprint P D (m ≫= f).
Proof. intros Hm Hf. apply (fp_bind_post (fun _ => True)); auto. Qed.

Lemma fp_gets_bind {A B} (g : world -> A) (Q : A -> Prop) (k : A -> M B) :
  (forall w, Q (g w)) -> (forall a, Q a -> footprint P D (k a)) -> footprint P D (gets g ≫= k).
Proof.
  intros HQ Hk. apply (fp_bind_post Q); [|apply fp_gets|exact Hk].
  intros w w' a [= _ <-]. apply HQ.
Qed.

Lemma fp_lift_rel_bind {B} (o : option path) (f : path -> M B) :
  (forall rel, o = Some rel -> footprint P D (f rel)) -> footprint P D (lift_rel o ≫= f).
Proof.
  intros Hf. apply (fp_bind_post (fun rel => o = Some rel)); [|by destruct o; [apply fp_ret|apply fp_raise]|exact Hf].
  intros w w' a. destruct o; cbv [lift_rel mret M_ret raise]; congruence.
Qed.

Lemma fp_try {A} (m : M A) (h : exn -> M A) :
  footprint P D m -> (forall e, footprint P D (h e)) -> footprint P D (try_except m h).
Proof.
  intros Hm Hh w. unfold footprint, fp_at in *. unfold try_except. specialize (Hm w).
  destruct (m w) as [w1 [a|e]]; [exact Hm|]. simpl in Hm.
  destruct Hm as ((t1 & Ht1 & HP1) & Hd1).
  destruct (Hh e w1) as ((t2 & Ht2 & HP2) & Hd2). split.
  - exists (t1 ++ t2). rewrite Ht2, Ht1, <- app_assoc. split; [done|]. by apply Forall_app.
  - intros q Hq. by rewrite Hd2, Hd1.
Qed.

Lemma fp_if {A} (b : bool) (m1 m2 : M A) :
  footprint P D m1 -> footprint P D m2 -> footprint P D (if b then m1 else m2).
Proof. by destruct b. Qed.

Lemma fp_forM {A} (l : list A) (f : A -> M unit) :
  (forall x, x ∈ l -> footprint P D (f x)) -> footprint P D (forM_ l f).
Proof.
  induction l as [|x l IH]; intros Hf; simpl; [apply fp_ret|].
  apply fp_bind; [apply Hf; left|intros _; apply IH; intros y Hy; apply Hf; by right].
Qed.

Lemma fp_one (a : action) (m : M unit) :
  P a -> (forall w, (exists w1, fst (m w) = add_trace a w1 /\ w_trace w1 = w_trace w /\
                                 w_db w1 = w_db w) \/
                    (w_trace (fst (m w)) = w_trace w /\ w_db (fst (m w)) = w_db w)) ->
  footprint P D m.
Proof.
  intros Ha H w. unfold footprint, fp_at in *. destruct (H w) as [(w1 & -> & Ht & Hd)|[Ht Hd]]; split.
  - exists [a]. simpl. rewrite Ht. auto.
  - intros q _. simpl. by rewrite Hd.
  - exists []. rewrite Ht, app_nil_r. auto.
  - intros q _. by rewrite Hd.
Qed.

Lemma fp_mkdir_one (q : path) : P (AMkdir q) -> footprint P D (mkdir_one q).
Proof.
  intros Ha. apply (fp_one _ _ Ha). intros w. unfold mkdir_one.
  destruct (w_fs w !! q) as [[]|]; simpl;
    first [right; split; reflexivity | left; eexists; split; [reflexivity|auto]].
Qed.

Lemma fp_ensure_dir (p : path) :
  (forall q, q ∈ prefixes p -> P (AMkdir q)) -> footprint P D (ensure_dir p).
Proof. intros H. apply fp_forM. intros q Hq. by apply fp_mkdir_one, H. Qed.

Lemma fp_os_rename (a b : path) : P (ARename a b) -> footprint P D (os_rename env a b).
Proof.
  intros Ha. apply (fp_one _ _ Ha). intros w. unfold os_rename.
  destruct (o_rename_fails env a b); [by right|].
  destruct (w_fs w !! a) as [[]|], (w_fs w !! b) as [[]|]; simpl;
    first [right; split; reflexivity | left; eexists; split; [reflexivity|auto]].
Qed.

Lemma fp_copy2 (a b : path) :
  P (ACopy a b) -> P (ACopy a (b ++ [name a])) -> footprint P D (copy2 a b).
Proof.
  intros H1 H2 w. unfold footprint, fp_at in *. unfold copy2.
  destruct (w_fs w !! a) as [[]|]; simpl.
  - split; [|intros q _; reflexivity].
    eexists. split; [reflexivity|]. destruct (is_dir (w_fs w) b); auto.
  - split; [exists []; rewrite app_nil_r; auto|done].
  - split; [exists []; rewrite app_nil_r; auto|done].
Qed.

Lemma fp_os_unlink (p : path) : P (AUnlink p) -> footprint P D (os_unlink env p).
Proof.
  intros Ha. apply (fp_one _ _ Ha). intros w. unfold os_unlink.
  destruct (o_unlink_fails env p); [by right|].
  destruct (w_fs w !! p) as [[]|]; simpl;
    first [right; split; reflexivity | left; eexists; split; [reflexivity|auto]].
Qed.

Lemma fp_try_unlink (p : path) : P (AUnlink p) -> footprint P D (try_pass (os_unlink env p)).
Proof. intros Ha. apply fp_try; [by apply fp_os_unlink|intros _; apply fp_ret]. Qed.

Lemma fp_mark (p : path) (st : string) (note : option string) :
  P (AMark p st) -> D p -> footprint P D (mark p st note).
Proof.
  intros Ha Hd w. unfold footprint, fp_at in *. split.
  - exists [AMark p st]. auto.
  - intros q Hq. simpl. rewrite lookup_insert_ne; [done|]. intros ->. done.
Qed.

Lemma fp_handbrake (a b : path) :
  P (AHandBrake a b) -> footprint P D (transcode_with_handbrake ARGS env a b).
Proof.
  intros Ha w. unfold footprint, fp_at in *. unfold transcode_with_handbrake. destruct (dry_run ARGS); [apply fp_ret|].
  destruct (o_handbrake env a b) as [rc o]. split.
  - exists [AHandBrake a b]. simpl. auto.
  - intros q _. reflexivity.
Qed.

Lemma fp_stat (p : path) : footprint P D (stat p).
Proof. apply fp_same. intros w. unfold stat. by destruct (st_size_of (w_fs w) p). Qed.

Lemma fp_time_sleep (n : Z) : footprint P D (time_sleep env n).
Proof. apply fp_same. auto. Qed.

Lemma fp_file_is_stable (p : path) (n : Z) : footprint P D (file_is_stable env p n).
Proof.
  apply fp_same. intros w. pose proof (file_is_stable_spec p n w) as H.
  destruct (file_is_stable env p n w) as [w' r]. simpl. tauto.
Qed.

Lemma fp_write_file (d : path) (sz : Z) : P (APoster d) -> footprint P D (write_file d sz).
Proof.
  intros Ha. apply (fp_one _ _ Ha). intros w. unfold write_file.
  destruct (w_fs w !! d) as [[]|]; simpl;
    first [right; split; reflexivity | left; eexists; split; [reflexivity|auto]].
Qed.

Lemma fp_mono (P' : action -> Prop) (D' : path -> Prop) {A} (m : M A) :
  (forall a, P' a -> P a) -> (forall q, D' q -> D q) -> footprint P' D' m -> footprint P D m.
Proof.
  intros HP HD Hm w. unfold footprint, fp_at in *. destruct (Hm w) as ((t & Ht & HPt) & Hd). split.
  - exists t. split; [exact Ht|]. eapply Forall_impl; [exact HPt|exact HP].
  - intros q Hq. apply Hd. intros Hq'. by apply Hq, HD.
Qed.

End Footprint.

(** Splits a [footprint] goal along the structure of the computation. *)
Ltac fp_step :=
  match goal with
  | |- footprint _ _ (lift_rel _ ≫= _) => apply fp_lift_rel_bind; intros ? ?
  | |- footprint _ _ (_ ≫= _) => apply fp_bind; [|intros ?]
  | |- footprint _ _ (try_except _ _) => apply fp_try; [|intros ?]
  | |- footprint _ _ (if _ then _ else _) => apply fp_if
  | |- footprint _ _ (match ?x with _ => _ end) => destruct x
  | |- footprint _ _ (mret _) => apply fp_ret
  | |- footprint _ _ (raise _) => apply fp_raise
  | |- footprint _ _ (gets _) => apply fp_gets
  | |- footprint _ _ (stat _) => apply fp_stat
  | |- footprint _ _ (time_sleep _ _) => apply fp_time_sleep
  | |- footprint _ _ (file_is_stable _ _ _) => apply fp_file_is_stable
  end.

(** [q] lies in the tree rooted at [root] (or is [root]). *)
Definition within (root q : path) : Prop := exists r, q = root ++ r.

Lemma within_app (root r : path) : within root (root ++ r).
Proof. by exists r. Qed.

Lemma within_trans (a b c : path) : within a b -> within b c -> within a c.
Proof. intros [r1 ->] [r2 ->]. exists (r1 ++ r2). by rewrite app_assoc. Qed.

Lemma prefixes_within (out y q : path) :
  q ∈ prefixes (out ++ y) -> within out q \/ within q out.
Proof.
  unfold prefixes. intros Hq. apply list_elem_of_In, in_map_iff in Hq as (n & <- & _).
  rewrite take_app. destruct (decide (n <= length out)%nat) as [Hn|Hn].
  - right. replace (n - length out)%nat with 0%nat by lia. rewrite take_0, app_nil_r.
    exists (drop n out). by rewrite take_drop.
  - left. rewrite take_ge by lia. eexists. reflexivity.
Qed.

Lemma parent_app (out rel : path) : rel <> [] -> parent (out ++ rel) = out ++ parent rel.
Proof. intros H. unfold parent. by apply removelast_app. Qed.

Lemma unique_dest_sibling (fs : gmap path entry) (dd : path) (n : string) :
  exists z, unique_dest fs (dd ++ [n]) = dd ++ [z].
Proof.
  destruct (unique_dest_shape fs (dd ++ [n])) as [[_ ->]|(_ & i & _ & -> & _)]; eauto.
  rewrite cand_app. eauto.
Qed.

Lemma with_suffix_parent (p : path) (s : string) : exists z, with_suffix p s = parent p ++ [z].
Proof. unfold with_suffix. eauto. Qed.

Lemma fp_move_safe (P : action -> Prop) (D : path -> Prop) (src dd : path) :
  (forall q, q ∈ prefixes dd -> P (AMkdir q)) ->
  (forall z, P (ARename src (dd ++ [z]))) ->
  (forall z, P (ACopy src (dd ++ [z])) /\ P (ACopy src ((dd ++ [z]) ++ [name src]))) ->
  P (AUnlink src) ->
  footprint P D (move_safe ARGS env src dd).
Proof.
  intros Hmk Hrn Hcp Hul. unfold move_safe.
  apply fp_bind; [by apply fp_ensure_dir|intros _].
  apply (fp_gets_bind _ _ _ (fun d => exists z, d = dd ++ [z])).
  { intros w. apply unique_dest_sibling. }
  intros d [z ->]. apply fp_if; [apply fp_ret|].
  apply fp_bind; [|intros _; apply fp_ret].
  apply fp_try; [by apply fp_os_rename|intros _].
  apply fp_bind; [apply fp_copy2; apply Hcp|intros _; by apply fp_try_unlink].
Qed.

(** What [process_movie_file src] may do: create directories on the way to
    or inside [out], move, copy, transcode or delete [src] into [out],
    rename or delete files inside [out], and write the status of [src]. *)
Definition pmf_action (src out : path) (a : action) : Prop :=
  match a with
  | AMkdir q => within out q \/ within q out
  | ARename a b => (a = src \/ within out a) /\ within out b
  | ACopy a b => a = src /\ within out b
  | AUnlink p => p = src \/ within out p
  | AHandBrake a b => a = src /\ within out b
  | AMark p _ => p = src
  | ACopyTree _ _ | APoster _ => False
  end.

Lemma fp_pmf_move (src out rel : path) :
  rel <> [] ->
  footprint (pmf_action src out) (fun q => q = src) (move_safe ARGS env src (parent (out ++ rel))).
Proof.
  intros Hrel. rewrite parent_app by exact Hrel. apply fp_move_safe; simpl.
  - intros q Hq. by apply prefixes_within in Hq.
  - intros z. split; [by left|]. rewrite <- app_assoc. apply within_app.
  - intros z. split; (split; [reflexivity|]); rewrite <- ?app_assoc; apply within_app.
  - by left.
Qed.

Lemma fp_process_movie_file (src dl out : path) :
  src <> dl ->
  footprint (pmf_action src out) (fun q => q = src) (process_movie_file ARGS env src dl out).
Proof.
  intros Hsrc.
  assert (Hrel : forall rel, relative_to src dl = Some rel -> rel <> []).
  { intros rel Hr ->. apply relative_to_app in Hr. apply Hsrc. by rewrite Hr, app_nil_r. }
  unfold process_movie_file, status_of, ask_confirm, probe_step, probe_video.
  repeat fp_step; try (apply fp_mark; simpl; reflexivity).
  - by apply fp_pmf_move, Hrel.
  - (* the transcode branch *)
    unfold transcode_step. apply fp_bind; [apply fp_mark; reflexivity|intros _].
    apply fp_lift_rel_bind. intros rel Hr. specialize (Hrel rel Hr).
    destruct (with_suffix_parent (out ++ rel) (".mp4" +:+ TEMP_SUFFIX)) as [zt Hzt].
    rewrite parent_app in Hzt by exact Hrel.
    assert (Htmp : within out (with_suffix (out ++ rel) (".mp4" +:+ TEMP_SUFFIX))).
    { rewrite Hzt, <- app_assoc. apply within_app. }
    apply fp_bind.
    { apply fp_ensure_dir. intros q Hq. unfold with_suffix, parent in Hq.
      rewrite removelast_last in Hq. change (removelast (out ++ rel)) with (parent (out ++ rel)) in Hq.
      rewrite parent_app in Hq by exact Hrel. by apply prefixes_within in Hq. }
    intros _. apply fp_bind; [apply fp_handbrake; split; [reflexivity|exact Htmp]|intros rc].
    unfold path_exists. repeat fp_step; try (apply fp_mark; simpl; reflexivity).
    + apply fp_try_unlink. by right.
    + (* the size comparison *)
      unfold size_comparison_step. apply fp_if.
      * apply fp_bind; [apply fp_if; [apply fp_ret|apply fp_try_unlink; by right]|intros _].
        apply fp_lift_rel_bind. intros rel0 H. assert (rel0 = rel) as -> by congruence.
        apply fp_bind; [by apply fp_pmf_move|intros moved; by apply fp_mark].
      * apply fp_lift_rel_bind. intros rel0 H. assert (rel0 = rel) as -> by congruence.
        apply (fp_bind_post _ _ (fun d => within out d)).
        { intros w w' d. rewrite choose_dest_final_run. intros [= _ <-].
          destruct (with_suffix_parent (out ++ rel) ".mp4") as [z1 Hz].
          rewrite parent_app in Hz by exact Hrel.
          destruct (exists_ (w_fs w) (with_suffix (out ++ rel) ".mp4")).
          - rewrite Hz. destruct (unique_dest_sibling (w_fs w) (out ++ parent rel) z1) as [z' ->].
            rewrite <- app_assoc. apply within_app.
          - rewrite Hz, <- app_assoc. apply within_app. }
        { unfold choose_dest_final, path_exists. repeat fp_step. }
        intros d Hd. apply fp_try; [|intros e; by apply fp_mark].
        apply fp_bind; [|intros _; by apply fp_mark].
        apply fp_if; [apply fp_ret|].
        apply fp_bind; [apply fp_os_rename; simpl; split; [right; exact Htmp|exact Hd]|].
        intros _. apply fp_try_unlink. by left.
Qed.

(** X8: [process_movie_file src] (for a [src] other than the downloads root
    itself) performs only these mutations: directories on the way to or
    inside the output root, renames, copies, transcodes and deletions of
    [src] into the output root, renames and deletions inside the output
    root, and status writes for [src]; and it writes no other status
    row.  It never copies a tree, writes a poster, or touches any other
    path of the downloads tree. *)
Theorem process_movie_file_footprint (src dl out : path) (w : world) :
  src <> dl ->
  let '(w', _) := process_movie_file ARGS env src dl out w in
  (exists t, w_trace w' = w_trace w ++ t /\ Forall (pmf_action src out) t) /\
  (forall q, q <> src -> w_db w' !! q = w_db w !! q).
Proof.
  intros Hsrc. destruct (fp_process_movie_file src dl out Hsrc w) as [Ht Hd].
  destruct (process_movie_file ARGS env src dl out w) as [w' r]. exact (conj Ht Hd).
Qed.

(** ** [collect_videos_two_depth] *)

Lemma elem_of_keys (fs : gmap path entry) (p : path) :
  p ∈ map fst (map_to_list fs) <-> is_Some (fs !! p).
Proof.
  rewrite list_elem_of_In, in_map_iff. split.
  - intros ([p' e] & <- & Hin). apply list_elem_of_In, elem_of_map_to_list in Hin. eauto.
  - intros [e He]. exists (p, e). split; [done|]. by apply list_elem_of_In, elem_of_map_to_list.
Qed.

Lemma iterdir_elem (fs : gmap path entry) (d p : path) :
  p ∈ iterdir fs d <-> is_Some (fs !! p) /\ exists x, p = d ++ [x].
Proof.
  unfold iterdir. rewrite list_elem_of_In, filter_In, <- list_elem_of_In, elem_of_keys.
  split.
  - intros [Hs Hr]. split; [exact Hs|].
    destruct (relative_to p d) as [[|x [|]]|] eqn:E; try discriminate.
    apply relative_to_app in E. eauto.
  - intros [Hs [x ->]]. split; [exact Hs|].
    assert (relative_to (d ++ [x]) d = Some [x]) as -> by by apply relative_to_app. done.
Qed.

Lemma rglob_elem_iff (fs : gmap path entry) (d p : path) :
  p ∈ rglob fs d <-> is_Some (fs !! p) /\ exists x r, p = d ++ x :: r.
Proof.
  unfold rglob. rewrite list_elem_of_In, filter_In, <- list_elem_of_In, elem_of_keys.
  split.
  - intros [Hs Hr]. split; [exact Hs|].
    destruct (relative_to p d) as [[|x r]|] eqn:E; try discriminate.
    apply relative_to_app in E. eauto.
  - intros [Hs (x & r & ->)]. split; [exact Hs|].
    assert (relative_to (d ++ x :: r) d = Some (x :: r)) as -> by by apply relative_to_app. done.
Qed.

Lemma NoDup_List_filter {A} (f : A -> bool) (l : list A) : NoDup l -> NoDup (List.filter f l).
Proof. rewrite !NoDup_ListNoDup. apply List.NoDup_filter. Qed.

Lemma NoDup_keys_filter (fs : gmap path entry) (f : path -> bool) :
  NoDup (List.filter f (map fst (map_to_list fs))).
Proof. apply NoDup_List_filter, NoDup_fst_map_to_list. Qed.

Lemma NoDup_flat_map_disj {A B} (g : A -> list B) (l : list A) :
  NoDup l -> (forall a, a ∈ l -> NoDup (g a)) ->
  (forall a b x, a ∈ l -> b ∈ l -> x ∈ g a -> x ∈ g b -> a = b) ->
  NoDup (flat_map g l).
Proof.
  induction l as [|a l IH]; intros Hl Hg Hdisj; simpl; [constructor|].
  apply NoDup_cons in Hl as [Ha Hl]. apply NoDup_app. split_and!.
  - apply Hg. left.
  - intros x Hx Hx'. apply list_elem_of_In, in_flat_map in Hx' as (b & Hb & Hxb).
    apply list_elem_of_In in Hb, Hxb.
    assert (a = b) as -> by (apply (Hdisj a b x); [left|by right|done|done]). done.
  - apply IH; [exact Hl| |].
    + intros b Hb. apply Hg. by right.
    + intros a' b x Ha' Hb. apply Hdisj; by right.
Qed.

Lemma elem_of_flat_map {A B} (g : A -> list B) (l : list A) (x : B) :
  x ∈ flat_map g l <-> exists a, a ∈ l /\ x ∈ g a.
Proof.
  rewrite list_elem_of_In, in_flat_map. split.
  - intros (a & Ha & Hx). exists a. split; by apply list_elem_of_In.
  - intros (a & Ha & Hx). exists a. split; by apply list_elem_of_In.
Qed.

Lemma is_video_file_some (fs : gmap path entry) (v : path) :
  is_video_file fs v = true -> is_Some (fs !! v).
Proof.
  unfold is_video_file, is_file. destruct (fs !! v); [eauto|discriminate].
Qed.

(** The videos [collect_videos_two_depth] gathers for the season folder [d]. *)
Definition season_videos (fs : gmap path entry) (d : path) : list path :=
  flat_map (fun f =>
    if is_video_file fs f then [f]
    else if is_dir fs f then List.filter (is_video_file fs) (rglob fs f)
    else []) (iterdir fs d).

Lemma collect_videos_unfold (fs : gmap path entry) (top : path) :
  collect_videos_two_depth fs top =
  match List.filter (is_video_file fs) (iterdir fs top) with
  | [] => []
  | _ :: _ => [("", List.filter (is_video_file fs) (iterdir fs top))]
  end ++
  flat_map (fun d => match season_videos fs d with
                     | [] => []
                     | _ :: _ => [(name d, season_videos fs d)]
                     end)
    (List.filter (is_dir fs) (iterdir fs top)).
Proof. reflexivity. Qed.

Lemma map_flat_map' {A B C} (f : B -> C) (g : A -> list B) (l : list A) :
  map f (flat_map g l) = flat_map (fun x => map f (g x)) l.
Proof. induction l as [|x l IH]; simpl; [done|]. by rewrite map_app, IH. Qed.

Lemma group_elem {A} (k0 : string) (l : list A) (k : string) (vs : list A) :
  (k, vs) ∈ (match l with [] => [] | _ :: _ => [(k0, l)] end) <-> k = k0 /\ vs = l /\ l <> [].
Proof.
  destruct l as [|v0 l].
  - split; [intros H; by apply elem_of_nil in H|]. intros (_ & _ & []). done.
  - rewrite list_elem_of_singleton. split; [intros [= -> ->]; split_and!; auto; discriminate|].
    intros (-> & -> & _). reflexivity.
Qed.

Lemma filter_elem {A} (f : A -> bool) (l : list A) (x : A) :
  x ∈ List.filter f l <-> x ∈ l /\ f x = true.
Proof. by rewrite !list_elem_of_In, filter_In. Qed.

(** Every proper ancestor inside [top] of an entry is a directory. *)
Definition tree_closed_prop (fs : gmap path entry) (top : path) : Prop :=
  forall p e r1 r2, fs !! p = Some e -> p = top ++ r1 ++ r2 -> r1 <> [] -> r2 <> [] ->
    fs !! (top ++ r1) = Some Dir.

(** The same, as a check over the entries below [top]. *)
Definition tree_closed (fs : gmap path entry) (top : path) : bool :=
  forallb (fun p =>
    match relative_to p top with
    | Some r => forallb (fun n => is_dir fs (top ++ take n r))
                        (seq 1 (length r - 1))
    | None => true
    end) (map fst (map_to_list fs)).

Lemma tree_closed_sound (fs : gmap path entry) (top : path) :
  tree_closed fs top = true -> tree_closed_prop fs top.
Proof.
  unfold tree_closed. rewrite forallb_forall. intros H p e r1 r2 He Hp Hr1 Hr2.
  assert (Hin : In p (map fst (map_to_list fs))).
  { apply list_elem_of_In, elem_of_keys. eauto. }
  specialize (H p Hin).
  assert (relative_to p top = Some (r1 ++ r2)) as Hr by by apply relative_to_app.
  rewrite Hr, forallb_forall in H.
  specialize (H (length r1)). rewrite take_app_length in H.
  assert (Hn : In (length r1) (seq 1 (length (r1 ++ r2) - 1))).
  { apply in_seq. rewrite length_app. destruct r1; [done|]. destruct r2; [done|]. simpl. lia. }
  specialize (H Hn). unfold is_dir in H. destruct (fs !! (top ++ r1)) as [[]|]; done.
Qed.

Lemma season_videos_elem (fs : gmap path entry) (top : path) (x : string) (v : path) :
  tree_closed_prop fs top ->
  v ∈ season_videos fs (top ++ [x]) <->
  is_video_file fs v = true /\ exists y r, v = top ++ x :: y :: r.
Proof.
  intros Hcl. unfold season_videos. rewrite elem_of_flat_map. split.
  - intros (f & Hf & Hv). apply iterdir_elem in Hf as [_ [y ->]].
    destruct (is_video_file fs ((top ++ [x]) ++ [y])) eqn:Hvf.
    + apply list_elem_of_singleton in Hv as ->. split; [exact Hvf|]. exists y, [].
      by rewrite <- app_assoc.
    + destruct (is_dir fs _); [|by apply elem_of_nil in Hv].
      apply filter_elem in Hv as [Hv Hvv]. apply rglob_elem_iff in Hv as [_ (z & r & ->)].
      split; [exact Hvv|]. exists y, (z :: r). by rewrite <- !app_assoc.
  - intros [Hvv (y & r & ->)]. exists (top ++ [x; y]).
    destruct (is_video_file_some _ _ Hvv) as [e He].
    destruct r as [|z r].
    + split.
      * apply iterdir_elem. split; [eauto|]. exists y. by rewrite <- app_assoc.
      * change (top ++ [x; y]) with (top ++ x :: y :: []). rewrite Hvv. by left.
    + assert (Hd : fs !! (top ++ [x; y]) = Some Dir).
      { apply (Hcl (top ++ x :: y :: z :: r) e [x; y] (z :: r)); [exact He|reflexivity|discriminate|discriminate]. }
      split.
      * apply iterdir_elem. split; [eauto|]. exists y. by rewrite <- app_assoc.
      * assert (is_video_file fs (top ++ [x; y]) = false) as ->
          by (unfold is_video_file, is_file; by rewrite Hd).
        assert (is_dir fs (top ++ [x; y]) = true) as -> by (unfold is_dir; by rewrite Hd).
        apply filter_elem. split; [|exact Hvv]. apply rglob_elem_iff.
        split; [eauto|]. exists z, r. by rewrite <- app_assoc.
Qed.

Lemma season_videos_nodup (fs : gmap path entry) (d : path) : NoDup (season_videos fs d).
Proof.
  unfold season_videos. apply NoDup_flat_map_disj.
  - apply NoDup_keys_filter.
  - intros f _. destruct (is_video_file fs f); [apply NoDup_singleton|].
    destruct (is_dir fs f); [apply NoDup_List_filter, NoDup_keys_filter|constructor].
  - intros a b v Ha Hb Hva Hvb.
    apply iterdir_elem in Ha as [_ [ya ->]], Hb as [_ [yb ->]].
    assert (Hin : forall y v, v ∈ (if is_video_file fs (d ++ [y]) then [d ++ [y]]
              else if is_dir fs (d ++ [y]) then List.filter (is_video_file fs) (rglob fs (d ++ [y]))
              else []) -> exists r, v = d ++ y :: r).
    { intros y v' Hv'. destruct (is_video_file fs (d ++ [y])).
      - apply list_elem_of_singleton in Hv' as ->. by exists [].
      - destruct (is_dir fs (d ++ [y])); [|by apply elem_of_nil in Hv'].
        apply filter_elem in Hv' as [Hv' _]. apply rglob_elem_iff in Hv' as [_ (z & r & ->)].
        exists (z :: r). by rewrite <- app_assoc. }
    destruct (Hin _ _ Hva) as [ra ->], (Hin _ _ Hvb) as [rb Hb].
    apply app_inv_head in Hb. by injection Hb as ->.
Qed.

Lemma name_app (d : path) (x : string) : name (d ++ [x]) = x.
Proof. unfold name. apply last_last. Qed.

(** X9: [collect_videos_two_depth top] on a directory tree (every proper
    ancestor inside [top] of an entry is a directory, and no folder at the
    top has the empty name): the group [""] holds exactly the video files
    directly in [top]; a group [k] holds exactly the video files at any
    depth inside the folder [top/k]; every video file strictly below [top]
    is in some group; the groups are non-empty, their keys are distinct
    and no group lists a file twice. *)
Theorem collect_videos_two_depth_spec (fs : gmap path entry) (top : path) :
  tree_closed fs top = true ->
  is_dir fs (top ++ [""]) = false ->
  let m := collect_videos_two_depth fs top in
  NoDup (map fst m) /\
  (forall k vs, (k, vs) ∈ m -> vs <> [] /\ NoDup vs) /\
  (forall vs, ("", vs) ∈ m ->
     forall v, v ∈ vs <-> is_video_file fs v = true /\ exists x, v = top ++ [x]) /\
  (forall k vs, (k, vs) ∈ m -> k <> "" ->
     is_dir fs (top ++ [k]) = true /\
     forall v, v ∈ vs <-> is_video_file fs v = true /\ exists y r, v = top ++ k :: y :: r) /\
  (forall v, is_video_file fs v = true -> (exists x r, v = top ++ x :: r) ->
     exists k vs, (k, vs) ∈ m /\ v ∈ vs).
Proof.
  intros Hcl Hnm0 m. apply tree_closed_sound in Hcl.
  assert (Hnm : forall x, is_dir fs (top ++ [x]) = true -> x <> "") by congruence.
  unfold m. rewrite collect_videos_unfold.
  set (direct := List.filter (is_video_file fs) (iterdir fs top)).
  set (dirs := List.filter (is_dir fs) (iterdir fs top)).
  set (h := fun d => match season_videos fs d with
                     | [] => []
                     | _ :: _ => [(name d, season_videos fs d)]
                     end).
  assert (Hdirect : forall v, v ∈ direct <-> is_video_file fs v = true /\ exists x, v = top ++ [x]).
  { intros v. unfold direct. rewrite filter_elem, iterdir_elem. split.
    - intros [[_ Hx] Hv]. auto.
    - intros [Hv Hx]. split; [split; [by apply is_video_file_some|exact Hx]|exact Hv]. }
  assert (Hdirs : forall d, d ∈ dirs <-> exists x, d = top ++ [x] /\ is_dir fs (top ++ [x]) = true).
  { intros d. unfold dirs. rewrite filter_elem, iterdir_elem. split.
    - intros [[_ [x ->]] Hd]. eauto.
    - intros (x & -> & Hd). split; [|exact Hd]. split; [|eauto].
      unfold is_dir in Hd. destruct (fs !! (top ++ [x])); [eauto|discriminate]. }
  assert (Hseas : forall k vs, (k, vs) ∈ flat_map h dirs <->
            exists x, k = x /\ is_dir fs (top ++ [x]) = true /\
                      vs = season_videos fs (top ++ [x]) /\ vs <> []).
  { intros k vs. rewrite elem_of_flat_map. split.
    - intros (d & Hd & Hin). apply Hdirs in Hd as (x & -> & Hd). exists x.
      unfold h in Hin. apply group_elem in Hin as (-> & -> & Hne).
      rewrite name_app. eauto.
    - intros (x & -> & Hd & -> & Hne). exists (top ++ [x]). split; [apply Hdirs; eauto|].
      unfold h. apply group_elem. by rewrite name_app. }
  assert (Hks : NoDup (map fst (flat_map h dirs))).
  { rewrite map_flat_map'. apply NoDup_flat_map_disj.
    - unfold dirs, iterdir. apply NoDup_List_filter, NoDup_keys_filter.
    - intros d _. unfold h. destruct (season_videos fs d); [constructor|apply NoDup_singleton].
    - intros a b k Ha Hb Hka Hkb.
      apply Hdirs in Ha as (xa & -> & _), Hb as (xb & -> & _).
      unfold h in Hka, Hkb.
      destruct (season_videos fs (top ++ [xa])); [by apply elem_of_nil in Hka|].
      destruct (season_videos fs (top ++ [xb])); [by apply elem_of_nil in Hkb|].
      simpl in Hka, Hkb. apply list_elem_of_singleton in Hka, Hkb.
      rewrite name_app in Hka, Hkb. congruence. }
  clearbody h.
  assert (Hall : forall k vs, (k, vs) ∈ (match direct with [] => [] | _ :: _ => [("", direct)] end) ++
                   flat_map h dirs <->
            (k = "" /\ vs = direct /\ direct <> []) \/
            (exists x, k = x /\ is_dir fs (top ++ [x]) = true /\
                       vs = season_videos fs (top ++ [x]) /\ vs <> [])).
  { intros k vs. by rewrite elem_of_app, group_elem, Hseas. }
  split_and!.
  - rewrite map_app. apply NoDup_app. split_and!.
    + clearbody direct. destruct direct; simpl; [constructor|apply NoDup_singleton].
    + intros k Hk Hk'. clearbody direct. destruct direct; simpl in Hk; [by apply elem_of_nil in Hk|].
      apply list_elem_of_singleton in Hk. subst k.
      apply list_elem_of_In, in_map_iff in Hk' as ([k vs] & Hk & Hin). simpl in Hk. subst k.
      apply list_elem_of_In, Hseas in Hin as (x & Hx & Hd & _). subst x. by apply (Hnm "").
    + exact Hks.
  - intros k vs Hin. apply Hall in Hin as [(Hk & Hvs & Hne)|(x & Hk & _ & Hvs & Hne)]; subst k vs.
    + split; [exact Hne|]. apply NoDup_List_filter, NoDup_keys_filter.
    + split; [exact Hne|]. apply season_videos_nodup.
  - intros vs Hin. apply Hall in Hin as [(_ & Hvs & _)|(x & Hx & Hd & _)].
    + subst vs. exact Hdirect.
    + subst x. exfalso. by apply (Hnm "").
  - intros k vs Hin Hk. apply Hall in Hin as [(Hk' & _)|(x & Hk' & Hd & Hvs & _)]; [done|].
    subst k vs.
    split; [exact Hd|]. intros v. by apply season_videos_elem.
  - intros v Hv (x & r & ->). destruct r as [|y r].
    + exists "", direct. split; [|by apply Hdirect; eauto].
      apply Hall. left. split_and!; [done|done|]. intros E.
      assert (Hin : top ++ [x] ∈ direct) by (apply Hdirect; eauto). rewrite E in Hin.
      by apply elem_of_nil in Hin.
    + destruct (is_video_file_some _ _ Hv) as [e He].
      assert (Hd : fs !! (top ++ [x]) = Some Dir).
      { apply (Hcl (top ++ x :: y :: r) e [x] (y :: r)); [exact He|reflexivity|discriminate|discriminate]. }
      assert (Hvin : top ++ x :: y :: r ∈ season_videos fs (top ++ [x])).
      { apply season_videos_elem; [exact Hcl|]. eauto. }
      exists x, (season_videos fs (top ++ [x])). split; [|exact Hvin].
      apply Hall. right. exists x. split_and!; [done|unfold is_dir; by rewrite Hd|done|].
      intros E. rewrite E in Hvin. by apply elem_of_nil in Hvin.
Qed.

(** ** What a scan touches *)

Lemma dict_get_in (k : string) (vs : list path) (m : list (string * list path)) :
  dict_get k m = Some vs -> (k, vs) ∈ m.
Proof.
  induction m as [|[k' vs'] m IH]; simpl; [discriminate|].
  destruct (String.eqb k k') eqn:E.
  - apply String.eqb_eq in E. intros [= <-]. subst. by left.
  - intros H. right. by apply IH.
Qed.

Lemma season_videos_under (fs : gmap path entry) (d v : path) :
  v ∈ season_videos fs d -> is_video_file fs v = true /\ exists y r, v = d ++ y :: r.
Proof.
  unfold season_videos. rewrite elem_of_flat_map. intros (f & Hf & Hv).
  apply iterdir_elem in Hf as [_ [y ->]].
  destruct (is_video_file fs (d ++ [y])) eqn:Hvf.
  - apply list_elem_of_singleton in Hv as ->. split; [exact Hvf|]. by exists y, [].
  - destruct (is_dir fs (d ++ [y])); [|by apply elem_of_nil in Hv].
    apply filter_elem in Hv as [Hv Hvv]. apply rglob_elem_iff in Hv as [_ (z & r & ->)].
    split; [exact Hvv|]. exists y, (z :: r). by rewrite <- app_assoc.
Qed.

(** Each video [collect_videos_two_depth top] lists is a video file strictly
    below [top]. *)
Lemma collect_elem_under (fs : gmap path entry) (top : path) (k : string) (vs : list path) (v : path) :
  (k, vs) ∈ collect_videos_two_depth fs top -> v ∈ vs ->
  is_video_file fs v = true /\ exists x r, v = top ++ x :: r.
Proof.
  rewrite collect_videos_unfold, elem_of_app, group_elem, elem_of_flat_map.
  intros [(_ & -> & _)|(d & Hd & Hin)] Hv.
  - apply filter_elem in Hv as [Hv Hvv]. apply iterdir_elem in Hv as [_ [x ->]].
    split; [exact Hvv|]. by exists x, [].
  - apply filter_elem in Hd as [Hd _]. apply iterdir_elem in Hd as [_ [x ->]].
    apply group_elem in Hin as (_ & -> & _).
    apply season_videos_under in Hv as [Hvv (y & r & ->)]. split; [exact Hvv|].
    exists x, (y :: r). by rewrite <- app_assoc.
Qed.

Lemma is_video_file_name (fs : gmap path entry) (v : path) :
  is_video_file fs v = true -> is_video_name v = true.
Proof. unfold is_video_file. rewrite andb_true_iff. tauto. Qed.

(** [q] lies strictly below [root]. *)
Definition below (root q : path) : Prop := exists x r, q = root ++ x :: r.

Lemma below_trans (a b c : path) : below a b -> within b c -> below a c.
Proof. intros (x & r & ->) [r' ->]. exists x, (r ++ r'). by rewrite <- app_assoc. Qed.

(** The mutations of a scan: directories on the way to the downloads root,
    to the output root or inside the output root; moves, copies, tree
    copies and transcodes from below the downloads root into the output
    root; renames and deletions inside the output root; deletions of
    sources below the downloads root; status writes for video names below
    the downloads root; posters directly in the output or downloads root. *)
Definition scan_action (dl out : path) (a : action) : Prop :=
  match a with
  | AMkdir q => within q dl \/ within q out \/ within out q
  | ARename a b => (below dl a \/ within out a) /\ within out b
  | ACopy a b => below dl a /\ within out b
  | AUnlink p => below dl p \/ within out p
  | ACopyTree a b => below dl a /\ within out b
  | AHandBrake a b => below dl a /\ within out b
  | AMark p _ => below dl p /\ is_video_name p = true
  | APoster p => exists z, p = out ++ [z] \/ p = dl ++ [z]
  end.

(** The status rows a scan may write. *)
Definition scan_row (dl q : path) : Prop := below dl q /\ is_video_name q = true.

Lemma prefixes_within_self (p q : path) : q ∈ prefixes p -> within q p.
Proof. intros Hq. apply prefixes_elem in Hq as [_ [r ->]]. apply within_app. Qed.

Lemma fp_fetch_poster (P : action -> Prop) (D : path -> Prop) (show : string)
    (out key_dl : path) (key : option string) (po : bool) :
  (forall q, within q (if po then key_dl else out) -> P (AMkdir q)) ->
  P (APoster ((if po then key_dl else out) ++ [show +:+ ".jpg"])) ->
  footprint P D (fetch_and_save_show_poster ARGS env show out key key_dl po).
Proof.
  intros Hmk Hpo. unfold fetch_and_save_show_poster.
  destruct key; [|apply fp_ret].
  apply fp_try; [|intros _; apply fp_ret].
  destruct (o_poster env show) as [sz|]; [|apply fp_ret].
  apply fp_if; [apply fp_ret|]. cbv zeta. apply fp_if; [apply fp_ret|].
  apply fp_bind; [|intros _; apply fp_bind; [by apply fp_write_file|intros _; apply fp_ret]].
  apply fp_ensure_dir. intros q Hq. apply Hmk.
  unfold parent in Hq. rewrite removelast_last in Hq. by apply prefixes_within_self.
Qed.

Lemma fp_copy_tree_safe (P : action -> Prop) (D : path -> Prop) (src dst : path) :
  (forall q, q ∈ prefixes dst -> P (AMkdir q)) -> P (ACopyTree src dst) ->
  footprint P D (copy_tree_safe ARGS src dst).
Proof.
  intros Hmk Hct. unfold copy_tree_safe.
  apply fp_bind; [by apply fp_ensure_dir|intros _].
  apply fp_if; [apply fp_ret|].
  apply (fp_one _ _ _ _ Hct). intros w. left. eexists. split; [reflexivity|]. auto.
Qed.

Lemma fp_pmf_scan (dl out src : path) :
  below dl src -> is_video_name src = true ->
  footprint (scan_action dl out) (scan_row dl) (process_movie_file ARGS env src dl out).
Proof.
  intros Hb Hv. apply (fp_mono _ _ (pmf_action src out) (fun q => q = src)).
  - intros [q|a b|a b|p|a b|a b|p st|p]; simpl; try tauto.
    + intros [[-> | ?] ?]; auto.
    + intros [-> ?]; auto.
    + intros [-> | ?]; auto.
    + intros [-> ?]; auto.
    + intros ->. auto.
  - intros q ->. by split.
  - apply fp_process_movie_file. intros ->. destruct Hb as (x & r & Hb).
    apply (f_equal length) in Hb. rewrite length_app in Hb. simpl in Hb. lia.
Qed.

Lemma fp_process_group (dl out top : path) (k : string) (vids : list path) (needs : list string) :
  below dl top -> (forall v, v ∈ vids -> below top v /\ is_video_name v = true) ->
  footprint (scan_action dl out) (scan_row dl) (process_group ARGS env dl out k vids needs).
Proof.
  intros Htop. revert needs. induction vids as [|v vids IH]; intros needs Hv; simpl; [apply fp_ret|].
  destruct (Hv v ltac:(left)) as [Hbv Hvv].
  apply fp_bind; [apply fp_pmf_scan; [|exact Hvv]|intros _].
  { destruct Htop as (x & r & ->). destruct Hbv as (y & r' & ->).
    exists x, (r ++ y :: r'). by rewrite <- app_assoc. }
  unfold status_of. apply fp_bind; [apply fp_gets|intros st].
  apply IH. intros v' Hv'. apply Hv. by right.
Qed.

Lemma fp_consolidate_season (dl out top : path) (sk : string) :
  below dl top ->
  footprint (scan_action dl out) (scan_row dl) (consolidate_season ARGS top dl out sk).
Proof.
  intros Htop. unfold consolidate_season, path_exists.
  apply fp_lift_rel_bind. intros rel _.
  destruct (season_dest_dir_out out rel sk) as [y Hy].
  assert (Hsrc : below dl (season_src_dir top sk)).
  { unfold season_src_dir. destruct (String.eqb sk ""); [exact Htop|].
    eapply below_trans; [exact Htop|apply within_app]. }
  apply fp_bind; [apply fp_gets|intros there]. apply fp_if; [|apply fp_ret].
  apply fp_bind.
  { apply fp_copy_tree_safe.
    - intros q Hq. rewrite Hy in Hq. apply prefixes_within in Hq. simpl. tauto.
    - simpl. split; [exact Hsrc|]. rewrite Hy. apply within_app. }
  intros _.
  apply (fp_gets_bind _ _ _ (fun files => forall f, f ∈ files -> below (season_src_dir top sk) f)).
  { intros w f Hf. apply rglob_elem_iff in Hf as [_ (x & r & ->)]. by exists x, r. }
  intros files Hfiles. apply fp_forM. intros f Hf.
  apply (fp_gets_bind _ _ _ (fun isv : bool => isv = true -> is_video_name f = true)).
  { intros w. apply is_video_file_name. }
  intros isv Hisv. destruct isv; [|apply fp_ret].
  assert (Hbf : below dl f).
  { destruct (Hfiles f Hf) as (x & r & ->). eapply below_trans; [exact Hsrc|apply within_app]. }
  apply fp_mark; split; auto.
Qed.

Lemma fp_process_show_topdir (dl out top : path) (key : option string) :
  below dl top ->
  footprint (scan_action dl out) (scan_row dl) (process_show_topdir ARGS env top dl out key).
Proof.
  intros Htop. unfold process_show_topdir.
  apply (fp_gets_bind _ _ _ (fun m => forall k vs v, (k, vs) ∈ m -> v ∈ vs ->
                                   below top v /\ is_video_name v = true)).
  { intros w k vs v Hin Hv. destruct (collect_elem_under _ top _ _ _ Hin Hv) as [Hvv Hb].
    split; [exact Hb|]. by apply is_video_file_name in Hvv. }
  intros m Hm. destruct m as [|g m'] eqn:Em; [apply fp_ret|]. rewrite <- Em in *.
  apply fp_bind.
  { unfold process_groups. apply fp_bind.
    - destruct (dict_get "" m) as [vids|] eqn:Eg; [|apply fp_ret].
      apply (fp_process_group dl out top); [exact Htop|]. intros v Hv.
      apply (Hm "" vids v); [by apply dict_get_in|exact Hv].
    - intros needs. clear Em. revert needs Hm. generalize m. intros m0.
      induction m0 as [|[k vids] m0 IH]; intros needs Hm; simpl; [apply fp_ret|].
      apply fp_bind.
      + apply fp_if; [apply fp_ret|]. apply (fp_process_group dl out top); [exact Htop|].
        intros v Hv. apply (Hm k vids v); [left|exact Hv].
      + intros needs'. apply IH. intros k' vs v Hin Hv. apply (Hm k' vs v); [by right|exact Hv]. }
  intros needs. apply fp_bind.
  { apply fp_forM. intros sk _. by apply fp_consolidate_season. }
  intros _. apply fp_if; [|apply fp_ret].
  apply fp_bind; [|intros _; apply fp_ret].
  apply fp_fetch_poster; simpl; eauto.
Qed.

Lemma fp_scan_entry (dl out entry : path) (key : option string) :
  (exists x, entry = dl ++ [x]) ->
  footprint (scan_action dl out) (scan_row dl) (scan_entry ARGS env dl out key entry).
Proof.
  intros [x Hx]. assert (Hb : below dl entry) by (exists x, []; exact Hx).
  unfold scan_entry, ask_confirm.
  apply fp_if; [apply fp_ret|]. apply fp_if.
  { apply fp_bind; [apply fp_gets|intros isd]. apply fp_if; [|apply fp_ret].
    apply fp_bind; [destruct (confirm ARGS); [apply fp_if|]; apply fp_ret|intros ok].
    apply fp_if; [|apply fp_ret]. apply fp_bind; [|intros _; apply fp_ret].
    apply fp_fetch_poster; simpl; eauto. }
  apply fp_if; [apply fp_ret|]. apply fp_bind; [apply fp_gets|intros fs].
  apply fp_if.
  - destruct (collect_videos_two_depth fs entry) as [|g m]; [apply fp_ret|].
    destruct (first_sample (g :: m)) as [sample|].
    + apply fp_bind; [apply fp_file_is_stable|intros stable]. apply fp_if; [apply fp_ret|].
      apply fp_bind; [by apply fp_process_show_topdir|intros _; apply fp_ret].
    + apply fp_bind; [by apply fp_process_show_topdir|intros _; apply fp_ret].
  - apply fp_if; [|apply fp_ret].
    destruct (is_video_name entry) eqn:Hv; simpl; [|apply fp_ret].
    apply fp_bind; [by apply fp_pmf_scan|intros _; apply fp_ret].
Qed.

Lemma fp_scan_and_process (dl out : path) (poll : Z) (one_shot : bool)
    (key : option string) (passes : nat) :
  footprint (scan_action dl out) (scan_row dl)
    (scan_and_process ARGS env dl out poll one_shot key passes).
Proof.
  unfold scan_and_process.
  apply fp_bind; [apply fp_ensure_dir; intros q Hq; simpl; left; by apply prefixes_within_self|intros _].
  apply fp_bind; [apply fp_ensure_dir; intros q Hq; simpl; right; left; by apply prefixes_within_self|intros _].
  induction passes as [|passes IH]; simpl; [apply fp_ret|].
  apply fp_bind.
  - unfold scan_pass.
    apply (fp_gets_bind _ _ _ (fun es => forall e, e ∈ es -> exists x, e = dl ++ [x])).
    { intros w e He. rewrite (merge_sort_Permutation path_le) in He.
      by apply iterdir_elem in He as [_ ?]. }
    intros es Hes. generalize false. induction es as [|e es IHes]; intros found; simpl; [apply fp_ret|].
    apply fp_bind; [apply fp_scan_entry, Hes; left|intros f].
    apply IHes. intros e' He'. apply Hes. by right.
  - intros _. apply fp_if; [apply fp_ret|]. apply fp_bind; [apply fp_time_sleep|intros _; exact IH].
Qed.

(** X10: Whatever the file system, the flags and the outside world do, a run of
    [scan_and_process] only creates directories on the way to the
    downloads or output root or inside the output root; moves, copies,
    tree-copies or transcodes from below the downloads root into the
    output root; renames or deletes inside the output root; deletes
    sources below the downloads root; writes posters directly in the output
    or downloads root; and records status only for video names below the
    downloads root, leaving every other row of the table as it was. *)
Theorem scan_and_process_footprint (dl out : path) (poll : Z) (one_shot : bool)
    (key : option string) (passes : nat) (w : world) :
  let '(w', _) := scan_and_process ARGS env dl out poll one_shot key passes w in
  (exists t, w_trace w' = w_trace w ++ t /\ Forall (scan_action dl out) t) /\
  (forall q, ~ (below dl q /\ is_video_name q = true) -> w_db w' !! q = w_db w !! q).
Proof.
  destruct (fp_scan_and_process dl out poll one_shot key passes w) as [Ht Hd].
  destruct (scan_and_process ARGS env dl out poll one_shot key passes w) as [w' r].
  exact (conj Ht Hd).
Qed.

(** ** Posters-only mode *)

(** The mutations of a posters-only scan. *)
Definition posters_action (dl out : path) (a : action) : Prop :=
  match a with
  | AMkdir q => within q dl \/ within q out
  | APoster p => exists z, p = dl ++ [z]
  | _ => False
  end.

Lemma fp_scan_entry_posters (dl out entry : path) (key : option string) :
  posters_only ARGS = true ->
  footprint (posters_action dl out) (fun _ => False) (scan_entry ARGS env dl out key entry).
Proof.
  intros Hpo. unfold scan_entry, ask_confirm. rewrite Hpo.
  apply fp_if; [apply fp_ret|].
  apply fp_bind; [apply fp_gets|intros isd]. apply fp_if; [|apply fp_ret].
  apply fp_bind; [destruct (confirm ARGS); [apply fp_if|]; apply fp_ret|intros ok].
  apply fp_if; [|apply fp_ret]. apply fp_bind; [|intros _; apply fp_ret].
  apply fp_fetch_poster; simpl; eauto.
Qed.

(** X11: With [--posters-only], a run of [scan_and_process] writes no status
    at all and performs no move, copy, transcode or deletion: it only
    creates directories on the way to the downloads or output root and
    writes posters directly in the downloads root. *)
Theorem scan_and_process_posters_only (dl out : path) (poll : Z) (one_shot : bool)
    (key : option string) (passes : nat) (w : world) :
  posters_only ARGS = true ->
  let '(w', _) := scan_and_process ARGS env dl out poll one_shot key passes w in
  w_db w' = w_db w /\
  exists t, w_trace w' = w_trace w ++ t /\ Forall (posters_action dl out) t.
Proof.
  intros Hpo.
  assert (Hfp : footprint (posters_action dl out) (fun _ => False)
                  (scan_and_process ARGS env dl out poll one_shot key passes)).
  { unfold scan_and_process.
    apply fp_bind; [apply fp_ensure_dir; intros q Hq; simpl; left; by apply prefixes_within_self|intros _].
    apply fp_bind; [apply fp_ensure_dir; intros q Hq; simpl; right; by apply prefixes_within_self|intros _].
    induction passes as [|passes IH]; simpl; [apply fp_ret|].
    apply fp_bind.
    - unfold scan_pass. apply fp_bind; [apply fp_gets|intros es].
      generalize false. induction es as [|e es IHes]; intros found; simpl; [apply fp_ret|].
      apply fp_bind; [by apply fp_scan_entry_posters|intros f]. apply IHes.
    - intros _. apply fp_if; [apply fp_ret|]. apply fp_bind; [apply fp_time_sleep|intros _; exact IH]. }
  destruct (Hfp w) as [Ht Hd].
  destruct (scan_and_process ARGS env dl out poll one_shot key passes w) as [w' r].
  split; [|exact Ht]. apply map_eq. intros q. apply Hd. tauto.
Qed.

(** ** [rel_output_path] *)

(** X12: [rel_output_path(dl, src, out)] mirrors [src]'s place below [dl] into
    [out]: for [src = dl / r] it returns [out / r] and, when no regular file
    lies on the way, leaves [out / r]'s parent as a directory; for a [src]
    outside [dl] it raises [ValueError] and changes nothing. *)
Theorem rel_output_path_spec (dl src out : path) (w : world) :
  let '(w', r) := rel_output_path dl src out w in
  w_db w' = w_db w /\
  match relative_to src dl with
  | None => r = Raise ValueError /\ w' = w
  | Some rel =>
      src = dl ++ rel /\
      (dir_creatable (w_fs w) (parent (out ++ rel)) = true ->
       r = Ok (out ++ rel) /\
       (parent (out ++ rel) = [] \/ w_fs w' !! parent (out ++ rel) = Some Dir))
  end.
Proof.
  unfold rel_output_path. rewrite run_bind.
  destruct (relative_to src dl) as [rel|] eqn:Hr; [|cbv [lift_rel raise]; auto].
  cbv [lift_rel mret M_ret]. rewrite run_bind.
  pose proof (ensure_dir_run (parent (out ++ rel)) w) as Hed.
  destruct (ensure_dir (parent (out ++ rel)) w) as [w1 r1].
  destruct Hed as (Hdb & _ & _ & _ & Hok & _).
  destruct r1 as [[]|e]; (split; [exact Hdb|]); (split; [by apply relative_to_app|]).
  - intros Hc. destruct (Hok Hc) as [_ Hdir].
    split; [reflexivity|].
    destruct (parent (out ++ rel)) as [|c p] eqn:Ep; [by left|right].
    apply (Hdir (c :: p) []); [discriminate|by rewrite app_nil_r].
  - intros Hc. destruct (Hok Hc) as [? _]. discriminate.
Qed.

(** ** [main] *)

(** X13: With both [--posters-only] and [--no-posters], [main] exits with
    status 1 before any scan: no file is touched, but with [--reset-db] the
    state database has already been deleted. *)
Theorem main_conflict_exits (c : cli) (prompted : path * path * Z) (default_output : path)
    (file_key : option string) (passes : nat) (w : world) :
  posters_only ARGS = true -> no_posters ARGS = true ->
  let '(w', r) := main_run ARGS env c prompted default_output file_key passes w in
  r = Ok (Some 1%Z) /\ w_fs w' = w_fs w /\ w_trace w' = w_trace w /\
  w_db w' = (if cli_reset_db c then ∅ else w_db w).
Proof.
  intros Hpo Hnp. unfold main_run. rewrite run_bind.
  destruct (cli_reset_db c); simpl;
    destruct (cli_downloads c) as [d|]; try destruct prompted as [[? ?] ?];
    rewrite Hpo, Hnp; simpl; auto.
Qed.

End Run.

(** * Witnesses and counterexamples *)

Import Fixtures.

Lemma move_safe_never_overwrites_witness :
  snd (move_safe args_run (env_probe None (0%Z, None) false false) movie_mp4 out w_collide)
  = Ok ["out"; "movie_1.mp4"].
Proof.
  pose proof (move_safe_never_overwrites args_run (env_probe None (0%Z, None) false false)
                movie_mp4 out 100 w_collide ltac:(vm_compute; reflexivity)) as H.
  destruct (move_safe _ _ movie_mp4 out w_collide) as [w' r]. simpl.
  apply (proj2 H); vm_compute; reflexivity.
Defined.

Lemma process_movie_file_unstable_no_status_witness :
  let '(w', r) := process_movie_file args_run env_grow movie dl out (w_movie []) in
  r = Ok tt /\ w_db w' = w_db (w_movie []) /\ w_trace w' = w_trace (w_movie []) /\
  gated (fr_status <$> w_db w' !! movie) = false.
Proof.
  apply (process_movie_file_unstable_no_status args_run env_grow movie dl out (w_movie []));
    vm_compute; try reflexivity; discriminate.
Defined.

Lemma scan_entry_unstable_sample_skips_show_witness :
  let '(w', r) := scan_entry args_run env_grow_show dl out None show w_show in
  r = Ok true /\ w_db w' = w_db w_show /\ w_trace w' = w_trace w_show.
Proof.
  apply (scan_entry_unstable_sample_skips_show args_run env_grow_show dl out show ep1
           None "" [] [("S2", [ep2])] w_show); vm_compute; reflexivity.
Defined.

Lemma skip_by_probe_policy_witness :
  let '(w', r) := probe_step args_run env_small movie dl out (w_movie []) in
  r = Ok tt /\ fr_status <$> w_db w' !! movie = Some "skipped_moved".
Proof.
  pose proof (proj1 (proj2 (proj2 (skip_by_probe_policy args_run env_small)))
                movie dl out ["m.mkv"] 100 probe_small (w_movie [])
                ltac:(vm_compute; reflexivity) ltac:(vm_compute; reflexivity)
                ltac:(reflexivity) ltac:(reflexivity) ltac:(reflexivity)
                ltac:(reflexivity) ltac:(vm_compute; reflexivity)) as H.
  destruct (probe_step args_run env_small movie dl out (w_movie [])) as [w' r].
  destruct H as (Hr & Hs & _). split; [exact Hr|exact Hs].
Defined.

Lemma transcode_failure_marks_error_witness :
  let '(w', r) := transcode_step args_run env_hb_fails movie dl out (w_movie []) in
  r = Ok tt /\ w_fs w' !! movie = Some (File 100) /\
  fr_status <$> w_db w' !! movie = Some "error" /\
  fr_note <$> w_db w' !! movie = Some (Some "handbrake_exit_1") /\
  is_file (w_fs w') movie_tmp = false.
Proof.
  pose proof (transcode_failure_marks_error args_run env_hb_fails movie dl out ["m.mkv"] 100
                (w_movie []) ltac:(vm_compute; reflexivity) ltac:(reflexivity)
                ltac:(vm_compute; congruence) ltac:(vm_compute; reflexivity)) as H.
  cbv zeta in H.
  destruct (transcode_step args_run env_hb_fails movie dl out (w_movie [])) as [w' r].
  destruct (proj1 H ltac:(vm_compute; lia)) as (Hr & Hs & Hst & Hn & Hu).
  split_and!; [exact Hr|exact Hs|exact Hst|exact Hn|exact (Hu eq_refl)].
Defined.

Lemma size_comparison_outcomes_witness :
  let '(w', r) := size_comparison_step args_run env_hb_50 movie dl out movie_tmp 100 50
                    w_transcoded in
  r = Ok tt /\ fr_status <$> w_db w' !! movie = Some "done_moved" /\
  w_fs w' !! ["out"; "m.mp4"] = Some (File 50) /\ w_fs w' !! movie_tmp = None /\
  w_fs w' !! movie = None.
Proof.
  pose proof (size_comparison_outcomes args_run env_hb_50 movie dl out ["m.mkv"] movie_tmp
                100 50 w_transcoded ltac:(reflexivity) ltac:(vm_compute; reflexivity)
                ltac:(vm_compute; reflexivity) ltac:(vm_compute; congruence)
                ltac:(reflexivity) ltac:(vm_compute; reflexivity)
                ltac:(vm_compute; reflexivity)) as H.
  cbv zeta in H.
  destruct (size_comparison_step args_run env_hb_50 movie dl out movie_tmp 100 50
              w_transcoded) as [w' r].
  destruct H as (Hr & _ & Hrep). destruct (Hrep ltac:(lia)) as (_ & Hok & _).
  destruct (Hok ltac:(vm_compute; reflexivity)) as (Hst & Hd & Ht & Hs).
  split_and!; [exact Hr|exact Hst|exact Hd|exact Ht|exact (Hs eq_refl)].
Defined.

Lemma season_copy_iff_flagged_witness :
  let '(w', r) := process_show_topdir args_run env_c_fails show_t dl out None w_show_tc in
  r = Ok tt /\ ACopyTree show_t ["out"; "T"] ∈ w_trace w' /\
  fr_status <$> w_db w' !! ep_c = Some "copied_season".
Proof.
  pose proof (season_copy_iff_flagged args_run env_c_fails show_t dl out ["T"] None w_show_tc
                eq_refl (fun l x => iff_refl _) eq_refl ltac:(intros x; reflexivity)
                ltac:(apply (bool_decide_unpack _); vm_compute; reflexivity)
                ltac:(apply (bool_decide_unpack _); vm_compute; reflexivity)) as H.
  cbv zeta in H.
  destruct (process_show_topdir args_run env_c_fails show_t dl out None w_show_tc)
    as [w' r] eqn:E.
  assert (Hr : r = Ok tt).
  { change r with (snd (w', r)). rewrite <- E. vm_compute. reflexivity. }
  assert (Hw' : w' = fst (process_show_topdir args_run env_c_fails show_t dl out None
                            w_show_tc)) by (rewrite E; reflexivity).
  destruct (H Hr) as (w1 & needs & t & Hg & _ & Ht & Hc & Hst).
  assert (Hw1 : w1 = fst (process_groups args_run env_c_fails dl out
                            (collect_videos_two_depth (w_fs w_show_tc) show_t) w_show_tc))
    by (rewrite Hg; reflexivity).
  assert (Hn : Ok needs = snd (process_groups args_run env_c_fails dl out
                            (collect_videos_two_depth (w_fs w_show_tc) show_t) w_show_tc))
    by (rewrite Hg; reflexivity).
  vm_compute in Hn. injection Hn as ->.
  split_and!.
  - exact Hr.
  - rewrite Ht. apply elem_of_app. right. apply Hc. exists "".
    split; [apply (bool_decide_unpack _); vm_compute; reflexivity|].
    split; [rewrite Hw1; vm_compute; reflexivity|]. split; reflexivity.
  - apply (Hst "" ep_c "c.mkv" []).
    + apply (bool_decide_unpack _). vm_compute. reflexivity.
    + rewrite Hw1. vm_compute. reflexivity.
    + reflexivity.
    + rewrite Hw'. vm_compute. reflexivity.
Defined.

(** C2, counterexample: the transcode (50 bytes) is smaller than the
    original (100 bytes), but the OS refuses the rename of the transcode:
    the status is [error], not [done_moved], and the original is not
    deleted. *)
Lemma size_comparison_rename_refused :
  let '(w', r) := process_movie_file args_run env_hb_50_no_rename movie dl out (w_movie []) in
  r = Ok tt /\ w_fs w' !! movie_tmp = Some (File 50) /\
  w_fs w' !! movie = Some (File 100) /\
  fr_status <$> w_db w' !! movie = Some "error" /\
  fr_note <$> w_db w' !! movie = Some (Some "move_failed:OSError").
Proof. vm_compute. split_and!; reflexivity. Qed.

(** C7, counterexample: the transcoder exits with 1 and leaves a 5-byte
    artifact that the OS does not let the script delete: the status is
    [error] and the artifact is still there. *)
Lemma transcode_failure_artifact_kept :
  let '(w', r) := process_movie_file args_run env_hb_fails_locked movie dl out (w_movie []) in
  r = Ok tt /\ fr_status <$> w_db w' !! movie = Some "error" /\
  w_fs w' !! movie_tmp = Some (File 5).
Proof. vm_compute. split_and!; reflexivity. Qed.

(** C4, counterexample: [a.mp4] is moved ([skipped_moved]) and flags the
    top directory for the copy; while the script waits on [b.avi], the
    download client deletes the show folder. The pass ends without an
    exception, [a.mp4] still has status [skipped_moved], and no tree is
    copied. *)
Lemma season_copy_source_removed :
  let '(w', r) := process_show_topdir args_run env_vanish show_t dl out None w_show_t in
  r = Ok tt /\ fr_status <$> w_db w' !! ep_a = Some "skipped_moved" /\
  w_fs w' !! show_t = None /\
  forallb (fun a => match a with ACopyTree _ _ => false | _ => true end) (w_trace w') = true.
Proof. vm_compute. split_and!; reflexivity. Qed.

(** ** Witnesses of the further properties *)

Lemma move_safe_outcome_witness :
  w_fs (w_movie []) !! movie = Some (File 100) /\ dry_run args_run = false /\
  dir_creatable (w_fs (w_movie [])) out = true /\
  let '(w', r) := move_safe args_run env_small movie out (w_movie []) in
  w_db w' = w_db (w_movie []) /\
  exists d, r = Ok d /\ w_fs w' !! d = Some (File 100) /\
    (w_fs w' !! movie = None \/
     (o_rename_fails env_small movie d = true /\ o_unlink_fails env_small movie = true /\
      w_fs w' !! movie = Some (File 100))).
Proof.
  split; [vm_compute; reflexivity|]. split; [reflexivity|]. split; [vm_compute; reflexivity|].
  apply move_safe_outcome; [vm_compute; reflexivity|reflexivity|vm_compute; reflexivity].
Defined.

Lemma process_movie_file_footprint_witness :
  movie <> dl /\
  let '(w', _) := process_movie_file args_run env_small movie dl out (w_movie []) in
  (exists t, w_trace w' = w_trace (w_movie []) ++ t /\ Forall (pmf_action movie out) t) /\
  (forall q, q <> movie -> w_db w' !! q = w_db (w_movie []) !! q).
Proof. split; [discriminate|]. apply process_movie_file_footprint. discriminate. Defined.

Lemma collect_videos_two_depth_spec_witness :
  tree_closed (w_fs w_show_t) show_t = true /\
  is_dir (w_fs w_show_t) (show_t ++ [""]) = false /\
  let m := collect_videos_two_depth (w_fs w_show_t) show_t in
  NoDup (map fst m) /\
  (forall k vs, (k, vs) ∈ m -> vs <> [] /\ NoDup vs) /\
  (forall vs, ("", vs) ∈ m ->
     forall v, v ∈ vs <-> is_video_file (w_fs w_show_t) v = true /\ exists x, v = show_t ++ [x]) /\
  (forall k vs, (k, vs) ∈ m -> k <> "" ->
     is_dir (w_fs w_show_t) (show_t ++ [k]) = true /\
     forall v, v ∈ vs <-> is_video_file (w_fs w_show_t) v = true /\
                          exists y r, v = show_t ++ k :: y :: r) /\
  (forall v, is_video_file (w_fs w_show_t) v = true -> (exists x r, v = show_t ++ x :: r) ->
     exists k vs, (k, vs) ∈ m /\ v ∈ vs).
Proof.
  split; [vm_compute; reflexivity|]. split; [vm_compute; reflexivity|].
  apply collect_videos_two_depth_spec; vm_compute; reflexivity.
Defined.

Lemma scan_and_process_posters_only_witness :
  posters_only args_posters = true /\
  let '(w', _) := scan_and_process args_posters env_small dl out 20%Z true None 1%nat w_show_t in
  w_db w' = w_db w_show_t /\
  exists t, w_trace w' = w_trace w_show_t ++ t /\ Forall (posters_action dl out) t.
Proof. split; [reflexivity|]. apply scan_and_process_posters_only. reflexivity. Defined.

Lemma main_conflict_exits_witness :
  posters_only args_conflict = true /\ no_posters args_conflict = true /\
  let '(w', r) := main_run args_conflict env_small cli_reset (dl, out, 20%Z) out None 1%nat
                    (w_movie [(movie, rec_of "done_moved")]) in
  r = Ok (Some 1%Z) /\ w_fs w' = w_fs (w_movie [(movie, rec_of "done_moved")]) /\
  w_trace w' = w_trace (w_movie [(movie, rec_of "done_moved")]) /\
  w_db w' = (if cli_reset_db cli_reset then ∅ else w_db (w_movie [(movie, rec_of "done_moved")])).
Proof.
  split; [reflexivity|]. split; [reflexivity|]. apply main_conflict_exits; reflexivity.
Defined.
